(** * instagram-connect: the signed request client ([src/Request.ts])

    A shallow embedding of the [Request] class and of the pieces of the
    JavaScript platform it calls ([JSON.stringify], object spread,
    [crypto.createHmac], [Number.prototype.toFixed], the [got] HTTP client),
    followed by the properties of the request pipeline.

    Conventions.
    - A JavaScript string is represented by the [string] of its UTF-8 bytes
      (well-formed strings only), which is also what [Hmac.update] hashes
      when it is handed a string.
    - A 32-bit word and a byte are a [Z] in range; wrap-around is explicit.
    - A JavaScript object is the list of its own enumerable properties in
      enumeration order.
    - The session state is threaded explicitly; the clock reading
      ([Date.now()]) and the network are inputs. *)

From Stdlib Require Import ZArith List String Ascii Lia Bool SpecFloat.
From Stdlib Require Import Sorted Permutation.
Import ListNotations.
Local Open Scope string_scope.
Local Open Scope list_scope.
Local Open Scope Z_scope.

(* ================================================================== *)
(** ** Characters, digits and byte strings *)

Module Text.

(** The double-quote character and the one-character string holding it. *)
Definition dquote : ascii := "034"%char.
Definition dq : string := String dquote EmptyString.

Definition code (c : ascii) : Z := Z.of_N (N_of_ascii c).

(** UTF-8 bytes of a string (strings are kept in UTF-8 form). *)
Definition utf8 (s : string) : list Z := map code (list_ascii_of_string s).

Definition hexdigit (d : Z) : ascii :=
  nth (Z.to_nat (d mod 16))
      (list_ascii_of_string "0123456789abcdef") "0"%char.

Definition hex_of_byte (b : Z) : list ascii :=
  [hexdigit (Z.shiftr b 4); hexdigit (Z.land b 15)].

(** Lowercase hexadecimal rendering of a byte string. *)
Definition hex (bs : list Z) : string :=
  string_of_list_ascii (flat_map hex_of_byte bs).

Definition is_lower_hex (c : ascii) : bool :=
  let n := code c in
  ((48 <=? n) && (n <=? 57)) || ((97 <=? n) && (n <=? 102)).

Definition is_digit (c : ascii) : bool :=
  let n := code c in (48 <=? n) && (n <=? 57).

Definition digit (d : Z) : ascii := ascii_of_N (Z.to_N (48 + d mod 10)).

(** Decimal digits of a non-negative integer, most significant first,
    without leading zeros ([0] gives one digit). *)
Fixpoint digits_from (fuel : nat) (n : Z) (acc : list ascii) : list ascii :=
  match fuel with
  | O => acc
  | S fuel' =>
      if n <? 10 then digit n :: acc
      else digits_from fuel' (n / 10) (digit n :: acc)
  end.

Definition digits (n : Z) : list ascii :=
  digits_from (S (Z.to_nat (Z.log2 n))) n [].

(** Value of a string of decimal digits. *)
Definition digits_value (ds : list ascii) : Z :=
  fold_left (fun acc c => 10 * acc + (code c - 48)) ds 0.

(** Splits a character list at its first occurrence of [sep]. *)
Fixpoint split_at (sep : ascii) (cs : list ascii)
  : option (list ascii * list ascii) :=
  match cs with
  | [] => None
  | c :: rest =>
      if Ascii.eqb c sep then Some ([], rest)
      else match split_at sep rest with
           | Some (a, b) => Some (c :: a, b)
           | None => None
           end
  end.

Fixpoint join (sep : string) (parts : list string) : string :=
  match parts with
  | [] => EmptyString
  | [p] => p
  | p :: rest => (p ++ sep ++ join sep rest)%string
  end.

(** [String.prototype.replace] with two one-character string arguments:
    only the first occurrence is replaced. *)
Fixpoint replace_first (from to : ascii) (s : string) : string :=
  match s with
  | EmptyString => EmptyString
  | String c rest =>
      if Ascii.eqb c from then String to rest
      else String c (replace_first from to rest)
  end.

Definition chr (n : Z) : ascii := ascii_of_N (Z.to_N n).

(** [String.prototype.toUpperCase] on the letters [a] to [z]. *)
Definition upper_char (c : ascii) : ascii :=
  let n := code c in
  if (97 <=? n) && (n <=? 122) then chr (n - 32) else c.

Fixpoint upper (s : string) : string :=
  match s with
  | EmptyString => EmptyString
  | String c rest => String (upper_char c) (upper rest)
  end.

End Text.

(* ================================================================== *)
(** ** SHA-256 (FIPS 180-4) over byte lists *)

Module SHA256.

Definition wrap32 (x : Z) : Z := x mod 2 ^ 32.
Definition add32 (x y : Z) : Z := wrap32 (x + y).
Definition rotr (n x : Z) : Z :=
  wrap32 (Z.lor (Z.shiftr x n) (Z.shiftl x (32 - n))).
Definition not32 (x : Z) : Z := Z.lxor x 0xffffffff.

Definition Ch (x y z : Z) : Z :=
  Z.lxor (Z.land x y) (Z.land (not32 x) z).
Definition Maj (x y z : Z) : Z :=
  Z.lxor (Z.lxor (Z.land x y) (Z.land x z)) (Z.land y z).
Definition bsig0 (x : Z) : Z :=
  Z.lxor (Z.lxor (rotr 2 x) (rotr 13 x)) (rotr 22 x).
Definition bsig1 (x : Z) : Z :=
  Z.lxor (Z.lxor (rotr 6 x) (rotr 11 x)) (rotr 25 x).
Definition ssig0 (x : Z) : Z :=
  Z.lxor (Z.lxor (rotr 7 x) (rotr 18 x)) (Z.shiftr x 3).
Definition ssig1 (x : Z) : Z :=
  Z.lxor (Z.lxor (rotr 17 x) (rotr 19 x)) (Z.shiftr x 10).

(** The first sixty-four primes. *)
Definition primes : list Z :=
  [2; 3; 5; 7; 11; 13; 17; 19; 23; 29; 31; 37; 41; 43; 47; 53;
   59; 61; 67; 71; 73; 79; 83; 89; 97; 101; 103; 107; 109; 113; 127; 131;
   137; 139; 149; 151; 157; 163; 167; 173; 179; 181; 191; 193; 197; 199;
   211; 223; 227; 229; 233; 239; 241; 251; 257; 263; 269; 271; 277; 281;
   283; 293; 307; 311].

(** Integer cube root below [2^n], one bit at a time. *)
Fixpoint cube_root_bits (n : nat) (x r : Z) : Z :=
  match n with
  | O => r
  | S n' =>
      let r' := r + 2 ^ Z.of_nat n' in
      if r' * r' * r' <=? x then cube_root_bits n' x r'
      else cube_root_bits n' x r
  end.

(** The first 32 bits of the fractional part of the cube root, and of the
    square root, of [p]. *)
Definition cube_root_fraction (p : Z) : Z :=
  wrap32 (cube_root_bits 36 (p * 2 ^ 96) 0).
Definition square_root_fraction (p : Z) : Z :=
  wrap32 (Z.sqrt (p * 2 ^ 64)).

(** The round constants: cube roots of the first sixty-four primes. *)
Definition K : list Z := Eval vm_compute in map cube_root_fraction primes.

(** The eight working registers, also used for the chaining value. *)
Record regs := Regs { ra : Z; rb : Z; rc : Z; rd : Z;
                      re : Z; rf : Z; rg : Z; rh : Z }.

(** The initial value: square roots of the first eight primes. *)
Definition init : regs :=
  Eval vm_compute in
    Regs (square_root_fraction 2) (square_root_fraction 3)
         (square_root_fraction 5) (square_root_fraction 7)
         (square_root_fraction 11) (square_root_fraction 13)
         (square_root_fraction 17) (square_root_fraction 19).

(** Big-endian 32-bit words of a byte string. *)
Fixpoint words (bs : list Z) : list Z :=
  match bs with
  | b0 :: b1 :: b2 :: b3 :: rest =>
      (Z.shiftl b0 24 + Z.shiftl b1 16 + Z.shiftl b2 8 + b3) :: words rest
  | _ => []
  end.

(** The [n] low bytes of [x], most significant first. *)
Definition be_bytes (n : nat) (x : Z) : list Z :=
  map (fun i => Z.land (Z.shiftr x (8 * Z.of_nat i)) 255) (rev (seq 0 n)).

(** Padding: a [1] bit, zeros up to 56 mod 64 bytes, the bit length on
    64 bits. *)
Definition pad (msg : list Z) : list Z :=
  let l := Z.of_nat (List.length msg) in
  msg ++ [0x80] ++ repeat 0 (Z.to_nat ((55 - l) mod 64))
      ++ be_bytes 8 (8 * l).

(** Message schedule, kept newest-first while it grows from 16 to 64
    words. *)
Fixpoint extend (n : nat) (w : list Z) : list Z :=
  match n with
  | O => w
  | S n' =>
      extend n'
        (add32 (add32 (ssig1 (nth 1 w 0)) (nth 6 w 0))
               (add32 (ssig0 (nth 14 w 0)) (nth 15 w 0)) :: w)
  end.

Definition schedule (block : list Z) : list Z :=
  rev (extend 48 (rev (words block))).

Definition round (r : regs) (kw : Z * Z) : regs :=
  let t1 := add32 (add32 (add32 (rh r) (bsig1 (re r)))
                         (add32 (Ch (re r) (rf r) (rg r)) (fst kw)))
                  (snd kw) in
  let t2 := add32 (bsig0 (ra r)) (Maj (ra r) (rb r) (rc r)) in
  Regs (add32 t1 t2) (ra r) (rb r) (rc r)
       (add32 (rd r) t1) (re r) (rf r) (rg r).

Definition compress (h : regs) (block : list Z) : regs :=
  let r := fold_left round (combine K (schedule block)) h in
  Regs (add32 (ra h) (ra r)) (add32 (rb h) (rb r))
       (add32 (rc h) (rc r)) (add32 (rd h) (rd r))
       (add32 (re h) (re r)) (add32 (rf h) (rf r))
       (add32 (rg h) (rg r)) (add32 (rh h) (rh r)).

Fixpoint blocks (n : nat) (bs : list Z) (h : regs) : regs :=
  match n with
  | O => h
  | S n' => blocks n' (skipn 64 bs) (compress h (firstn 64 bs))
  end.

Definition output (h : regs) : list Z :=
  flat_map (be_bytes 4)
    [ra h; rb h; rc h; rd h; re h; rf h; rg h; rh h].

Definition digest (msg : list Z) : list Z :=
  let p := pad msg in
  output (blocks (List.length p / 64)%nat p init).

End SHA256.

(* ================================================================== *)
(** ** HMAC (RFC 2104) and Node's [crypto.createHmac] *)

Module HMAC.

Definition block_size : nat := 64.

(** The key brought to one block: hashed when longer, then zero-filled. *)
Definition key_block (key : list Z) : list Z :=
  let k := if (block_size <? List.length key)%nat
           then SHA256.digest key else key in
  k ++ repeat 0 (block_size - List.length k).

Definition ipad (key : list Z) : list Z :=
  map (fun b => Z.lxor b 0x36) (key_block key).
Definition opad (key : list Z) : list Z :=
  map (fun b => Z.lxor b 0x5c) (key_block key).

(** [H (K xor opad || H (K xor ipad || text))]. *)
Definition hmac_sha256 (key text : list Z) : list Z :=
  SHA256.digest (opad key ++ SHA256.digest (ipad key ++ text)).

End HMAC.

Module Crypto.

(** The one algorithm and the one output encoding the program asks for. *)
Inductive algorithm := sha256.
Inductive encoding := hex.

(** A Node [Hmac] object: the keyed outer pad and the inner message
    accumulated so far (starting with the keyed inner pad). *)
Record Hmac := { alg : algorithm; outer : list Z; inner : list Z }.

Definition createHmac (a : algorithm) (key : string) : Hmac :=
  {| alg := a;
     outer := HMAC.opad (Text.utf8 key);
     inner := HMAC.ipad (Text.utf8 key) |}.

(** [hmac.update(data)] with a string: its UTF-8 bytes are appended. *)
Definition update (h : Hmac) (data : string) : Hmac :=
  {| alg := alg h; outer := outer h;
     inner := inner h ++ Text.utf8 data |}.

Definition digest (h : Hmac) (e : encoding) : string :=
  match alg h, e with
  | sha256, hex =>
      Text.hex (SHA256.digest (outer h ++ SHA256.digest (inner h)))
  end.

End Crypto.

(* ================================================================== *)
(** ** JavaScript values and objects *)

Module JS.

#[local] Set Warnings "-register-all".

(** The values that occur in request descriptors, header tables and
    decoded responses.  [JNum n] is the Number that the integer literal
    [n] denotes, that is the double nearest to [n] (an infinity beyond
    the largest double); Numbers with a fraction are not modelled. *)
Inductive JSValue :=
| JUndefined
| JNull
| JBool (b : bool)
| JNum (n : Z)
| JStr (s : string)
| JArr (elems : list JSValue)
| JObj (props : list (string * JSValue)).

(** An object: own enumerable string-keyed properties in enumeration
    order (array-index keys ascending, then the others in creation
    order); a well-formed object has pairwise distinct keys. *)
Definition JSObject := list (string * JSValue).

Definition keys (o : JSObject) : list string := map fst o.

(** [typeof v === 'string'], with the narrowing it gives. *)
Definition as_string (v : JSValue) : option string :=
  match v with JStr s => Some s | _ => None end.

Fixpoint lookup (k : string) (o : JSObject) : option JSValue :=
  match o with
  | [] => None
  | (k', v) :: rest => if String.eqb k k' then Some v else lookup k rest
  end.

(** Property read [o[k]]: [undefined] when there is no such property. *)
Definition get (o : JSObject) (k : string) : JSValue :=
  match lookup k o with Some v => v | None => JUndefined end.

Definition has (k : string) (o : JSObject) : bool :=
  match lookup k o with Some _ => true | None => false end.

(** A key is an array index when it is the canonical decimal form of an
    integer in [0, 2^32 - 2]. *)
Definition array_index (k : string) : option Z :=
  let cs := list_ascii_of_string k in
  if forallb Text.is_digit cs then
    let i := Text.digits_value cs in
    if String.eqb (string_of_list_ascii (Text.digits i)) k
       && (i <=? 4294967294)
    then Some i else None
  else None.

Fixpoint replace (k : string) (v : JSValue) (o : JSObject) : JSObject :=
  match o with
  | [] => []
  | (k', v') :: rest =>
      if String.eqb k k' then (k, v) :: rest
      else (k', v') :: replace k v rest
  end.

(** Position of a new array-index key: before the first property that is
    not an array index or has a larger index. *)
Fixpoint insert_index (i : Z) (k : string) (v : JSValue) (o : JSObject)
  : JSObject :=
  match o with
  | [] => [(k, v)]
  | (k', v') :: rest =>
      match array_index k' with
      | Some j => if j <? i then (k', v') :: insert_index i k v rest
                  else (k, v) :: o
      | None => (k, v) :: o
      end
  end.

(** [CreateDataProperty]: an existing property keeps its place and gets
    the new value; a new one is added in enumeration order. *)
Definition set (o : JSObject) (k : string) (v : JSValue) : JSObject :=
  if has k o then replace k v o
  else match array_index k with
       | Some i => insert_index i k v o
       | None => o ++ [(k, v)]
       end.

(** [CopyDataProperties]: what one spread element [...src] does to the
    object under construction. *)
Definition copy (src dst : JSObject) : JSObject :=
  fold_left (fun o kv => set o (fst kv) (snd kv)) src dst.

(** The object literal [{ ...a, ...b }]. *)
Definition spread2 (a b : JSObject) : JSObject := copy b (copy a []).

(** [x || d] for an optional string: [undefined] and the empty string
    are falsy. *)
Definition or_string (x : option string) (d : string) : string :=
  match x with
  | Some EmptyString => d
  | Some s => s
  | None => d
  end.

(** [x || {}] for an optional object. *)
Definition or_empty (x : option JSObject) : JSObject :=
  match x with Some o => o | None => [] end.

End JS.


(* ================================================================== *)
(** ** Numbers: binary64 division and [Number.prototype.toFixed] *)

Module Number.

(** A finite double, as the dyadic number [mant * 2^expo]. *)
Record binary64 := { mant : Z; expo : Z }.

(** [num / den] rounded to the nearest integer, ties to even
    ([0 <= num], [0 < den]). *)
Definition round_nearest_even (num den : Z) : Z :=
  let q := num / den in
  let r := num mod den in
  if 2 * r <? den then q
  else if den <? 2 * r then q + 1
  else if Z.even q then q else q + 1.

(** [(a / b) / 2^e] as a fraction of two integers. *)
Definition scaled (a b e : Z) : Z * Z :=
  if 0 <=? e then (a, b * 2 ^ e) else (a * 2 ^ (- e), b).

(** The JavaScript quotient [a / b] of two integer-valued doubles
    ([b <> 0]): the exact quotient rounded to a 53-bit significand, ties
    to even.  The exponent is the one that puts the significand in
    [[2^52, 2^53)]; results in the subnormal or overflow range do not
    arise from integers below [2^53]. *)
Definition fdiv (a b : Z) : binary64 :=
  if a =? 0 then {| mant := 0; expo := 0 |}
  else
    let e0 := Z.log2 (Z.abs a) - Z.log2 (Z.abs b) - 53 in
    let nd0 := scaled (Z.abs a) (Z.abs b) e0 in
    let e := if fst nd0 <? 2 ^ 53 * snd nd0 then e0 else e0 + 1 in
    let nd := scaled (Z.abs a) (Z.abs b) e in
    {| mant := Z.sgn a * Z.sgn b * round_nearest_even (fst nd) (snd nd);
       expo := e |}.

(** Whether [fdiv a b], for positive operands, is the quotient that the
    IEEE 754 specification of the Standard Library computes in binary64
    ([prec = 53], [emax = 1024]). *)
Definition fdiv_is_ieee (a b : Z) : bool :=
  match SFdiv 53 1024 (S754_finite false (Z.to_pos a) 0)
              (S754_finite false (Z.to_pos b) 0) with
  | S754_finite false m e =>
      (Z.pos m =? mant (fdiv a b)) && (e =? expo (fdiv a b))
  | _ => false
  end.

(** The integer [n] for which [n / 10^f - x] is closest to zero, the
    larger one when there are two ([0 <= x]). *)
Definition nearest_scaled (x : binary64) (f : Z) : Z :=
  let t := mant x * 10 ^ f in
  if 0 <=? expo x then t * 2 ^ expo x
  else (2 * t + 2 ^ (- expo x)) / (2 * 2 ^ (- expo x)).

(** [x.toFixed(f)] for [1 <= f] and [|x| < 10^21] (larger magnitudes go
    through the exponent form of [Number::toString] and are outside this
    model). *)
Definition toFixed (x : binary64) (f : nat) : string :=
  let neg := mant x <? 0 in
  let ax := {| mant := Z.abs (mant x); expo := expo x |} in
  let n := nearest_scaled ax (Z.of_nat f) in
  let m := Text.digits n in
  let m := if (List.length m <=? f)%nat
           then repeat "0"%char (f + 1 - List.length m) ++ m else m in
  let k := List.length m in
  ((if neg then "-" else EmptyString)
     ++ string_of_list_ascii (firstn (k - f) m)
     ++ "."
     ++ string_of_list_ascii (skipn (k - f) m))%string.

(** The value of the double nearest to the non-negative integer [n]
    (ties to even), or [None] when that is beyond the largest double,
    where the Number is [Infinity]. *)
Definition nearest_double (n : Z) : option Z :=
  if n <? 2 ^ 53 then Some n
  else
    let x := fdiv n 1 in
    let v := mant x * 2 ^ expo x in
    if v <? 2 ^ 1024 then Some v else None.

Definition rounds_to (x v : Z) : bool :=
  match nearest_double v with
  | Some y => y =? x
  | None => false
  end.

(** The decimal with [k] significant digits that denotes the double [x]
    (an integer of [n0] digits), if there is one: the multiples of
    [10^(n0-k)] on either side of [x] are tried, and when both denote [x]
    the closer one is taken (the even one when they are as close). *)
Definition with_digits (x : Z) (n0 k : nat) : option Z :=
  let p := 10 ^ Z.of_nat (n0 - k) in
  let lo := (x / p) * p in
  let hi := lo + p in
  match rounds_to x lo, rounds_to x hi with
  | true, false => Some lo
  | false, true => Some hi
  | true, true =>
      if x - lo <? hi - x then Some lo
      else if hi - x <? x - lo then Some hi
      else if Z.even (x / p) then Some lo else Some hi
  | false, false => None
  end.

(** The shortest decimal that denotes [x]: the least number of
    significant digits first. *)
Fixpoint shortest_from (x : Z) (n0 k : nat) (tries : nat) : Z :=
  match tries with
  | O => x
  | S tries' =>
      match with_digits x n0 k with
      | Some v => v
      | None => shortest_from x n0 (S k) tries'
      end
  end.

Definition shortest (x : Z) : Z :=
  let n0 := List.length (Text.digits x) in
  shortest_from x n0 1 (n0 - 1).

Fixpoint strip_zeros (ds : list ascii) : list ascii :=
  match ds with
  | [] => []
  | d :: rest =>
      match strip_zeros rest with
      | [] => if Ascii.eqb d "0" then [] else [d]
      | rest' => d :: rest'
      end
  end.

(** [Number::toString] (radix 10) of the Number that the integer literal
    [n] denotes, [None] standing for an infinity.  An integer below
    [2^53] in magnitude is a double and prints in full; a larger one
    prints as the shortest decimal that denotes its double, with zeros
    up to 21 digits and in exponent form beyond. *)
Definition integer_to_string (n : Z) : option string :=
  let a := Z.abs n in
  let sign := if n <? 0 then "-" else EmptyString in
  if a <? 2 ^ 53 then
    Some (sign ++ string_of_list_ascii (Text.digits a))%string
  else
    match nearest_double a with
    | None => None
    | Some x =>
        let ds := Text.digits (shortest x) in
        let n := List.length ds in
        if (n <=? 21)%nat then Some (sign ++ string_of_list_ascii ds)%string
        else
          let e := string_of_list_ascii (Text.digits (Z.of_nat n - 1)) in
          match strip_zeros ds with
          | [] => None
          | [d] => Some (sign ++ String d "e+" ++ e)%string
          | d :: rest =>
              Some (sign ++ String d "." ++ string_of_list_ascii rest
                         ++ "e+" ++ e)%string
          end
    end.

(** The largest time value of a JavaScript [Date], in milliseconds
    since the epoch; [Date.now()] is an integer no larger than this. *)
Definition max_time : Z := 8640000000000000.

(** Reads back a decimal numeral with exactly three fraction digits, in
    thousandths. *)
Definition read_fixed3 (s : string) : option Z :=
  match Text.split_at "."%char (list_ascii_of_string s) with
  | Some (ip, fp) =>
      if negb (Nat.eqb (List.length ip) 0)
         && forallb Text.is_digit ip
         && Nat.eqb (List.length fp) 3
         && forallb Text.is_digit fp
      then Some (Text.digits_value ip * 1000 + Text.digits_value fp)
      else None
  | None => None
  end.

End Number.

(* ================================================================== *)
(** ** [JSON.stringify], and reading JSON back *)

Module JSON.
Import JS.

Definition backslash : string := String "092"%char EmptyString.

(** One character of [QuoteJSONString]: the two-character escapes, the
    [\u00xx] form for the other control characters, anything else as it
    is. *)
Definition escape (c : ascii) : string :=
  let n := Text.code c in
  if n =? 8 then backslash ++ "b"
  else if n =? 9 then backslash ++ "t"
  else if n =? 10 then backslash ++ "n"
  else if n =? 12 then backslash ++ "f"
  else if n =? 13 then backslash ++ "r"
  else if n =? 34 then backslash ++ Text.dq
  else if n =? 92 then backslash ++ backslash
  else if n <? 32 then
    backslash ++ "u00" ++ string_of_list_ascii (Text.hex_of_byte n)
  else String c EmptyString.

Definition quote (s : string) : string :=
  Text.dq ++ concat EmptyString (map escape (list_ascii_of_string s))
          ++ Text.dq.

(** A Number in a JSON text: its [toString], and [null] for an
    infinity. *)
Definition number_to_string (n : Z) : string :=
  match Number.integer_to_string n with
  | Some s => s
  | None => "null"
  end.

Definition is_undefined (v : JSValue) : bool :=
  match v with JUndefined => true | _ => false end.

(** [SerializeJSONProperty] without indentation: an [undefined] array
    element prints as [null], an [undefined] property is left out. *)
Fixpoint serialize (v : JSValue) : string :=
  match v with
  | JUndefined => "null"
  | JNull => "null"
  | JBool b => if b then "true" else "false"
  | JNum n => number_to_string n
  | JStr s => quote s
  | JArr elems => "[" ++ Text.join "," (map serialize elems) ++ "]"
  | JObj props =>
      "{" ++ Text.join ","
               (flat_map
                  (fun kv =>
                     if is_undefined (snd kv) then []
                     else [quote (fst kv) ++ ":" ++ serialize (snd kv)])
                  props)
          ++ "}"
  end%string.

(** [JSON.stringify(v)]: [undefined] has no JSON text. *)
Definition stringify (v : JSValue) : option string :=
  if is_undefined v then None else Some (serialize v).

(** [JSON.stringify] of an object, which always yields a string. *)
Definition stringify_object (o : JSObject) : string := serialize (JObj o).

(** *** Reading a JSON text *)

(** A hexadecimal digit, in either case. *)
Definition hex_value (c : ascii) : option Z :=
  let n := Text.code c in
  if (48 <=? n) && (n <=? 57) then Some (n - 48)
  else if (97 <=? n) && (n <=? 102) then Some (n - 87)
  else if (65 <=? n) && (n <=? 70) then Some (n - 55)
  else None.

Definition hex4 (a b c d : ascii) : option Z :=
  match hex_value a, hex_value b, hex_value c, hex_value d with
  | Some x, Some y, Some z, Some w => Some (((x * 16 + y) * 16 + z) * 16 + w)
  | _, _, _, _ => None
  end.

(** UTF-8 bytes of a code point of the Basic Multilingual Plane; a
    surrogate has none. *)
Definition utf8_of_code_point (cp : Z) : option (list ascii) :=
  if cp <? 128 then Some [Text.chr cp]
  else if cp <? 2048 then
    Some [Text.chr (192 + cp / 64); Text.chr (128 + cp mod 64)]
  else if (55296 <=? cp) && (cp <=? 57343) then None
  else Some [Text.chr (224 + cp / 4096); Text.chr (128 + (cp / 64) mod 64);
             Text.chr (128 + cp mod 64)].

(** The character a two-character escape stands for. *)
Definition unescape (e : ascii) : option ascii :=
  let n := Text.code e in
  if n =? 34 then Some Text.dquote
  else if n =? 92 then Some "092"%char
  else if n =? 47 then Some "/"%char
  else if n =? 98 then Some "008"%char
  else if n =? 102 then Some "012"%char
  else if n =? 110 then Some "010"%char
  else if n =? 114 then Some "013"%char
  else if n =? 116 then Some "009"%char
  else None.

Definition prepend (cs : list ascii)
           (r : option (list ascii * list ascii))
  : option (list ascii * list ascii) :=
  match r with
  | Some (s, rest) => Some (cs ++ s, rest)
  | None => None
  end.

(** The characters of a string literal after its opening quote, up to
    the closing quote. *)
Fixpoint decode_chars (cs : list ascii)
  : option (list ascii * list ascii) :=
  match cs with
  | [] => None
  | c :: rest =>
      if Text.code c =? 34 then Some ([], rest)
      else if Text.code c =? 92 then
        match rest with
        | [] => None
        | e :: rest' =>
            if Text.code e =? 117 then
              match rest' with
              | h1 :: h2 :: h3 :: h4 :: rest'' =>
                  match hex4 h1 h2 h3 h4 with
                  | Some cp =>
                      match utf8_of_code_point cp with
                      | Some bytes => prepend bytes (decode_chars rest'')
                      | None => None
                      end
                  | None => None
                  end
              | _ => None
              end
            else
              match unescape e with
              | Some x => prepend [x] (decode_chars rest')
              | None => None
              end
        end
      else if Text.code c <? 32 then None
      else prepend [c] (decode_chars rest)
  end.

Fixpoint span_digits (cs : list ascii) : list ascii * list ascii :=
  match cs with
  | c :: rest =>
      if Text.is_digit c then
        let (ds, r) := span_digits rest in (c :: ds, r)
      else ([], cs)
  | [] => ([], [])
  end.

(** Whether a number may end before [rest]: not before a fraction or an
    exponent (numbers with either are outside this model). *)
Definition ends_number (rest : list ascii) : bool :=
  match rest with
  | c :: _ =>
      negb ((Text.code c =? 46) || (Text.code c =? 101)
            || (Text.code c =? 69))
  | [] => true
  end.

(** An integer numeral: digits without a leading zero. *)
Definition decode_natural (cs : list ascii) : option (Z * list ascii) :=
  let (ds, rest) := span_digits cs in
  let a := Text.digits_value ds in
  if negb (Nat.eqb (List.length ds) 0)
     && String.eqb (string_of_list_ascii (Text.digits a))
                   (string_of_list_ascii ds)
     && ends_number rest
  then Some (a, rest) else None.

Fixpoint decode_value (fuel : nat) (cs : list ascii)
  : option (JSValue * list ascii) :=
  match fuel with
  | O => None
  | S fuel' =>
      match cs with
      | "n"%char :: "u"%char :: "l"%char :: "l"%char :: rest => Some (JNull, rest)
      | "t"%char :: "r"%char :: "u"%char :: "e"%char :: rest => Some (JBool true, rest)
      | "f"%char :: "a"%char :: "l"%char :: "s"%char :: "e"%char :: rest => Some (JBool false, rest)
      | "034"%char :: rest =>
          match decode_chars rest with
          | Some (s, rest') => Some (JStr (string_of_list_ascii s), rest')
          | None => None
          end
      | "["%char :: "]"%char :: rest => Some (JArr [], rest)
      | "["%char :: rest =>
          match decode_elements fuel' rest with
          | Some (vs, rest') => Some (JArr vs, rest')
          | None => None
          end
      | "{"%char :: "}"%char :: rest => Some (JObj [], rest)
      | "{"%char :: rest =>
          match decode_members fuel' rest with
          | Some (ps, rest') => Some (JObj ps, rest')
          | None => None
          end
      | "-"%char :: rest =>
          match decode_natural rest with
          | Some (a, rest') => Some (JNum (- a), rest')
          | None => None
          end
      | _ =>
          match decode_natural cs with
          | Some (a, rest') => Some (JNum a, rest')
          | None => None
          end
      end
  end
with decode_elements (fuel : nat) (cs : list ascii)
  : option (list JSValue * list ascii) :=
  match fuel with
  | O => None
  | S fuel' =>
      match decode_value fuel' cs with
      | Some (v, ","%char :: rest) =>
          match decode_elements fuel' rest with
          | Some (vs, rest') => Some (v :: vs, rest')
          | None => None
          end
      | Some (v, "]"%char :: rest) => Some ([v], rest)
      | _ => None
      end
  end
with decode_members (fuel : nat) (cs : list ascii)
  : option (list (string * JSValue) * list ascii) :=
  match fuel with
  | O => None
  | S fuel' =>
      match cs with
      | "034"%char :: rest =>
          match decode_chars rest with
          | Some (k, ":"%char :: rest') =>
              match decode_value fuel' rest' with
              | Some (v, ","%char :: rest'') =>
                  match decode_members fuel' rest'' with
                  | Some (ps, r) => Some ((string_of_list_ascii k, v) :: ps, r)
                  | None => None
                  end
              | Some (v, "}"%char :: rest'') =>
                  Some ([(string_of_list_ascii k, v)], rest'')
              | _ => None
              end
          | _ => None
          end
      | _ => None
      end
  end.

(** Where a value may end in a compact text: at the end of the text,
    before a comma, or before a closing bracket or brace. *)
Definition delimited (rest : list ascii) : bool :=
  match rest with
  | [] => true
  | c :: _ =>
      (Text.code c =? 44) || (Text.code c =? 93) || (Text.code c =? 125)
  end.

(** The value a compact JSON text denotes, object members in the order of
    the text; [None] when the text is not JSON (or has white space, a
    fraction, an exponent or an escaped surrogate, which this model
    leaves out). *)
Definition decode (s : string) : option JSValue :=
  let cs := list_ascii_of_string s in
  match decode_value (S (List.length cs)) cs with
  | Some (v, []) => Some v
  | _ => None
  end.

(** The value that the JSON text of [v] denotes: an [undefined] array
    element has become [null] and an [undefined] property is gone. *)
Fixpoint denoted (v : JSValue) : JSValue :=
  match v with
  | JUndefined => JNull
  | JArr elems => JArr (map denoted elems)
  | JObj props =>
      JObj (flat_map
              (fun kv =>
                 if is_undefined (snd kv) then []
                 else [(fst kv, denoted (snd kv))])
              props)
  | _ => v
  end.

(** Numbers that are integers below [2^53] in magnitude, throughout. *)
Fixpoint safe (v : JSValue) : bool :=
  match v with
  | JNum n => Z.abs n <? 2 ^ 53
  | JArr elems => forallb safe elems
  | JObj props => forallb (fun kv => safe (snd kv)) props
  | _ => true
  end.

End JSON.

(* ================================================================== *)
(** ** The session state and the constants *)

Module Session.
Import JS.

(** Modelled from the spec: the cookie store of the session ([State] is
    not among the sources), as the name/value pairs it holds. *)
Definition CookieJar := list (string * string).

(** Modelled from the spec: the session-state object behind
    [this.client.state], with the fields [Request] reads and writes,
    under the names the source uses. *)
Record State := {
  cookieJar : CookieJar;
  csrfToken : string;
  uuid : string;
  deviceId : string;
  pigeonSessionId : string;
  appUserAgent : string;
  authorization : string;
  igWWWClaim : string;
  passwordEncryptionKeyId : string;
  passwordEncryptionPublicKey : string
}.

(** Modelled from the spec: the cookie accessor by name
    ([state.getCookieValue]); a cookie that is not in the jar reads as
    [undefined]. *)
Definition getCookieValue (st : State) (name : string) : JSValue :=
  match find (fun c => String.eqb (fst c) name) (cookieJar st) with
  | Some c => JStr (snd c)
  | None => JUndefined
  end.

(** Field assignments [state.f = v]. *)
Definition set_cookieJar (v : CookieJar) (st : State) : State :=
  {| cookieJar := v; csrfToken := csrfToken st; uuid := uuid st;
     deviceId := deviceId st; pigeonSessionId := pigeonSessionId st;
     appUserAgent := appUserAgent st; authorization := authorization st;
     igWWWClaim := igWWWClaim st;
     passwordEncryptionKeyId := passwordEncryptionKeyId st;
     passwordEncryptionPublicKey := passwordEncryptionPublicKey st |}.

Definition set_csrfToken (v : string) (st : State) : State :=
  {| cookieJar := cookieJar st; csrfToken := v; uuid := uuid st;
     deviceId := deviceId st; pigeonSessionId := pigeonSessionId st;
     appUserAgent := appUserAgent st; authorization := authorization st;
     igWWWClaim := igWWWClaim st;
     passwordEncryptionKeyId := passwordEncryptionKeyId st;
     passwordEncryptionPublicKey := passwordEncryptionPublicKey st |}.

Definition set_authorization (v : string) (st : State) : State :=
  {| cookieJar := cookieJar st; csrfToken := csrfToken st; uuid := uuid st;
     deviceId := deviceId st; pigeonSessionId := pigeonSessionId st;
     appUserAgent := appUserAgent st; authorization := v;
     igWWWClaim := igWWWClaim st;
     passwordEncryptionKeyId := passwordEncryptionKeyId st;
     passwordEncryptionPublicKey := passwordEncryptionPublicKey st |}.

Definition set_igWWWClaim (v : string) (st : State) : State :=
  {| cookieJar := cookieJar st; csrfToken := csrfToken st; uuid := uuid st;
     deviceId := deviceId st; pigeonSessionId := pigeonSessionId st;
     appUserAgent := appUserAgent st; authorization := authorization st;
     igWWWClaim := v;
     passwordEncryptionKeyId := passwordEncryptionKeyId st;
     passwordEncryptionPublicKey := passwordEncryptionPublicKey st |}.

Definition set_passwordEncryptionKeyId (v : string) (st : State) : State :=
  {| cookieJar := cookieJar st; csrfToken := csrfToken st; uuid := uuid st;
     deviceId := deviceId st; pigeonSessionId := pigeonSessionId st;
     appUserAgent := appUserAgent st; authorization := authorization st;
     igWWWClaim := igWWWClaim st;
     passwordEncryptionKeyId := v;
     passwordEncryptionPublicKey := passwordEncryptionPublicKey st |}.

Definition set_passwordEncryptionPublicKey (v : string) (st : State)
  : State :=
  {| cookieJar := cookieJar st; csrfToken := csrfToken st; uuid := uuid st;
     deviceId := deviceId st; pigeonSessionId := pigeonSessionId st;
     appUserAgent := appUserAgent st; authorization := authorization st;
     igWWWClaim := igWWWClaim st;
     passwordEncryptionKeyId := passwordEncryptionKeyId st;
     passwordEncryptionPublicKey := v |}.

(** Modelled from the spec: the values of [./constants] that [Request]
    uses; they are supplied, not computed. *)
Record Constants := {
  API_URL : string;
  API_HOST : string;
  SIGNATURE_KEY : string;
  SIGNATURE_VERSION : string;
  HEADER_CONNECTION_TYPE : string;
  HEADER_CAPABILITIES : string;
  FACEBOOK_ANALYTICS_APPLICATION_ID : string;
  BLOKS_VERSION_ID : string;
  LANGUAGE : string
}.

End Session.

(* ================================================================== *)
(** ** The HTTP client ([got]) as [Request] uses it *)

Module Got.
Import JS Session.

(** The signed envelope ([./types/SignedFormBody]). *)
Record SignedFormBody := {
  ig_sig_key_version : string;
  signed_body : string
}.

(** The request options [Request.send] hands over.  Of the three ways
    [got] accepts a payload ([body], [json], [form]) the record keeps all
    three, so that what is left unset is visible. *)
Record Options := {
  url : string;
  method : string;
  responseType : string;
  headers : JSObject;
  body : option string;
  json : option JSValue;
  form : option SignedFormBody
}.

(** The body of a response under [responseType: 'json']: the decoded
    value, or the text itself when it is not JSON. *)
Inductive Body :=
| Decoded (v : JSValue)
| Undecoded (text : string).

(** [response.body] as a JavaScript value. *)
Definition body_value (b : Body) : JSValue :=
  match b with
  | Decoded v => v
  | Undecoded text => JStr text
  end.

(** A received response: status, headers as Node presents them (lower-case
    names; a value is a string, or an array for a repeated header), and
    the body. *)
Record Response := {
  statusCode : Z;
  responseHeaders : JSObject;
  responseBody : Body
}.

(** How a call can fail: options the client refuses ([Thrown], with the
    name and the message of the exception it throws before anything is
    sent), no response at all ([RequestError], the transport failure), a
    body that does not decode ([ParseError]), or a response the client
    rejects for its status ([HTTPError]). *)
Inductive GotError :=
| Thrown (name message : string)
| RequestError (message : string)
| ParseError
| HTTPError (status : Z).

(** Outcome of an awaited promise. *)
Inductive Settled (A : Type) :=
| Fulfilled (a : A)
| Rejected (e : GotError).
Arguments Fulfilled {A} a.
Arguments Rejected {A} e.

(** How an exchange ends: without a final response, or with the
    response the call settles on.  [jar] is the shared cookie jar as the
    client leaves it, with the cookies it has stored on the way. *)
Inductive Outcome :=
| Failed (jar : CookieJar) (e : GotError)
| Responded (jar : CookieJar) (r : Response).

(** What the network and the client's own retrying do with one request:
    the responses the client received and chose to retry (each with the
    jar as it stood once its cookies were stored), then the outcome.
    Which responses are retried, and how often, is the client's default
    policy and is left to the exchange. *)
Record Exchange := {
  retried : list (CookieJar * Response);
  outcome : Outcome
}.

(** The network, as seen from the client: base URL, cookies sent,
    request options. *)
Definition Transport := string -> CookieJar -> Options -> Exchange.

(** An [afterResponse] hook bound to the session state. *)
Definition Hook := Response -> State -> State * Response.

(** A client instance made by [got.extend]: the options [Request] sets
    ([cookieJar] is the jar of the state the calls are run on).  All
    other options keep the library's defaults, of which four matter
    here: [throwHttpErrors] is on, so a response with an unsuccessful
    status rejects the promise with an [HTTPError]; [followRedirect] is
    on, so the successful statuses are 2xx and 304; [retry] is on, so
    some responses are followed by another attempt; and [allowGetBody]
    is off, so a GET or HEAD request may carry no payload. *)
Record Instance := {
  prefixUrl : string;
  afterResponse : list Hook
}.

Definition extend (prefix : string) (hooks : list Hook) : Instance :=
  {| prefixUrl := prefix; afterResponse := hooks |}.

Fixpoint run_hooks (hs : list Hook) (r : Response) (st : State)
  : State * Response :=
  match hs with
  | [] => (st, r)
  | h :: rest => let (st', r') := h r st in run_hooks rest r' st'
  end.

(** A status the client resolves with: 2xx, or 304. *)
Definition isResponseOk (r : Response) : bool :=
  ((200 <=? statusCode r) && (statusCode r <=? 299))
  || (statusCode r =? 304).

Definition undecoded (r : Response) : bool :=
  match responseBody r with
  | Decoded _ => false
  | Undecoded _ => true
  end.

(** Whether a response reaches the [afterResponse] hooks.  The client
    decodes the body first, and a successful response whose body does not
    decode rejects the promise there and then; an unsuccessful one goes
    on to the hooks with its body as text. *)
Definition hooked (r : Response) : bool :=
  negb (isResponseOk r && undecoded r).

Definition has_payload (o : Options) : bool :=
  match body o, json o, form o with
  | None, None, None => false
  | _, _, _ => true
  end.

(** The methods, as the client normalises them, that may carry no
    payload. *)
Definition refuses_payload (m : string) : bool :=
  String.eqb (Text.upper m) "GET" || String.eqb (Text.upper m) "HEAD".

Definition refusal (m : string) : GotError :=
  Thrown "TypeError"
         ("The `" ++ Text.upper m ++ "` method cannot be used with a body").

(** [url.startsWith('/')] *)
Definition starts_with_slash (u : string) : bool :=
  match u with
  | String c _ => Ascii.eqb c "/"
  | EmptyString => false
  end.

(** The options the client refuses, in the order it checks them: a [url]
    that starts with a slash (the [url] is appended to [prefixUrl]), and
    a payload on a GET or HEAD request.  ([prefixUrl] is taken to be an
    absolute URL, so that prefix and [url] always make up a URL.) *)
Definition refused (o : Options) : option GotError :=
  if starts_with_slash (url o) then
    Some (Thrown "Error"
                 "`input` must not start with a slash when using `prefixUrl`")
  else if has_payload o && refuses_payload (method o) then
    Some (refusal (method o))
  else None.

(** The exchange of one call: none at all, and the cookie jar untouched,
    when the client refuses the options; otherwise what the network
    answers. *)
Definition exchange (g : Instance) (net : Transport) (o : Options)
           (jar : CookieJar) : Exchange :=
  match refused o with
  | Some e => {| retried := []; outcome := Failed jar e |}
  | None => net (prefixUrl g) jar o
  end.

(** The responses of an exchange that reach the hooks, in the order
    received, and the jar at its end. *)
Definition received (x : Exchange) : list Response :=
  filter hooked
         (map snd (retried x) ++ match outcome x with
                                 | Failed _ _ => []
                                 | Responded _ r => [r]
                                 end).

Definition final_jar (x : Exchange) : CookieJar :=
  match outcome x with
  | Failed jar _ => jar
  | Responded jar _ => jar
  end.

(** A response that is retried: its cookies are in the jar and, if it
    reaches them, the hooks have run on it. *)
Definition receive (g : Instance) (st : State) (jr : CookieJar * Response)
  : State :=
  if hooked (snd jr)
  then fst (run_hooks (afterResponse g) (snd jr)
                      (set_cookieJar (fst jr) st))
  else set_cookieJar (fst jr) st.

(** One call [await got(options)]: the exchange; then, for the response
    the call settles on, the decoding of the body, the [afterResponse]
    hooks (which run before the status is looked at) and the promise:
    fulfilled when the status is successful, rejected with an
    [HTTPError] otherwise, and rejected with a [ParseError], the hooks
    not having run, when the status is successful and the body does not
    decode. *)
Definition request (g : Instance) (net : Transport) (o : Options)
           (st : State) : State * Settled Response :=
  let x := exchange g net o (cookieJar st) in
  let st1 := fold_left (receive g) (retried x) st in
  match outcome x with
  | Failed jar e => (set_cookieJar jar st1, Rejected e)
  | Responded jar r =>
      if isResponseOk r && undecoded r
      then (set_cookieJar jar st1, Rejected ParseError)
      else
        let (st', r') :=
          run_hooks (afterResponse g) r (set_cookieJar jar st1) in
        if isResponseOk r' then (st', Fulfilled r')
        else (st', Rejected (HTTPError (statusCode r')))
  end.

End Got.

(* ================================================================== *)
(** ** [class Request] *)

Module Request.
Import JS Session Got.

(** [./types/RequestOptions]: the descriptor of one call. *)
Record RequestOptions := {
  ro_url : string;
  ro_method : option string;
  ro_headers : option JSObject;
  ro_data : option JSObject
}.

(** The four response headers that are copied into the state. *)
Inductive Tracked :=
| WWWClaim
| Authorization
| PasswordEncryptionKeyId
| PasswordEncryptionPublicKey.

Definition header_name (t : Tracked) : string :=
  match t with
  | WWWClaim => "x-ig-set-www-claim"
  | Authorization => "ig-set-authorization"
  | PasswordEncryptionKeyId => "ig-set-password-encryption-key-id"
  | PasswordEncryptionPublicKey => "ig-set-password-encryption-pub-key"
  end.

Definition field (t : Tracked) (st : State) : string :=
  match t with
  | WWWClaim => igWWWClaim st
  | Authorization => authorization st
  | PasswordEncryptionKeyId => passwordEncryptionKeyId st
  | PasswordEncryptionPublicKey => passwordEncryptionPublicKey st
  end.

(** [if (typeof v === 'string') state.f = v] *)
Definition assign_if_string (v : JSValue) (assign : string -> State -> State)
           (st : State) : State :=
  match as_string v with
  | Some s => assign s st
  | None => st
  end.

Definition updateStateFromResponse (response : Response) (st : State)
  : State :=
  let hs := responseHeaders response in
  let igWWWClaim := get hs "x-ig-set-www-claim" in
  let authorization := get hs "ig-set-authorization" in
  let passwordEncryptionKeyId :=
    get hs "ig-set-password-encryption-key-id" in
  let passwordEncryptionPublicKey :=
    get hs "ig-set-password-encryption-pub-key" in
  let st := assign_if_string igWWWClaim set_igWWWClaim st in
  let st := assign_if_string authorization set_authorization st in
  let st := assign_if_string passwordEncryptionKeyId
                             set_passwordEncryptionKeyId st in
  assign_if_string passwordEncryptionPublicKey
                   set_passwordEncryptionPublicKey st.

(** The fields [Request] only reads, and with the cookie jar the fields
    the hook never assigns. *)
Definition same_readonly (st st' : State) : Prop :=
  csrfToken st' = csrfToken st
  /\ uuid st' = uuid st
  /\ deviceId st' = deviceId st
  /\ pigeonSessionId st' = pigeonSessionId st
  /\ appUserAgent st' = appUserAgent st.

Definition same_untracked (st st' : State) : Prop :=
  cookieJar st' = cookieJar st /\ same_readonly st st'.

(** The hook as a step on the state, for folding over the responses of
    an exchange. *)
Definition apply_hook (st : State) (r : Response) : State :=
  updateStateFromResponse r st.

(** The value a tracked field takes from one response. *)
Definition pick (t : Tracked) (old : string) (r : Response) : string :=
  match lookup (header_name t) (responseHeaders r) with
  | Some (JStr s) => s
  | _ => old
  end.

(** The [afterResponse] hook: update the state, pass the response on. *)
Definition afterResponse (response : Response) (st : State)
  : State * Response :=
  (updateStateFromResponse response st, response).

(** [get data ()] *)
Definition data (st : State) : JSObject :=
  [("_csrfToken", JStr (csrfToken st))].

Section WithConstants.
Variable K : Constants.

Definition sign (data : string) : string :=
  Crypto.digest
    (Crypto.update (Crypto.createHmac Crypto.sha256 (SIGNATURE_KEY K))
                   data)
    Crypto.hex.

Definition signData (data : JSObject) : SignedFormBody :=
  let string := JSON.stringify_object data in
  let signature := sign string in
  {| ig_sig_key_version := SIGNATURE_VERSION K;
     signed_body := (signature ++ "." ++ string)%string |}.

(** [get headers ()]; [now] is the reading of [Date.now()] taken by
    this evaluation of the getter. *)
Definition headers (st : State) (now : Z) : JSObject :=
  [ ("X-Ads-Opt-Out", JStr "1");
    ("X-CM-Bandwidth-KBPS", JStr "-1.000");
    ("X-CM-Latency", JStr "-1.000");
    ("X-IG-Connection-Speed", JStr "3700kbps");
    ("X-IG-Bandwidth-Speed-KBPS", JStr "-1.000");
    ("X-IG-Bandwidth-TotalBytes-B", JStr "0");
    ("X-IG-Bandwidth-TotalTime-MS", JStr "0");
    ("X-IG-EU-DC-ENABLED", JStr "false");
    ("X-IG-Extended-CDN-Thumbnail-Cache-Busting-Value", JStr "1000");
    ("X-IG-WWW-Claim", JStr "0");
    ("X-Bloks-Is-Layout-RTL", JStr "false");
    ("X-FB-HTTP-Engine", JStr "Liger");
    ("X-Pigeon-Rawclienttime",
     JStr (Number.toFixed (Number.fdiv now 1000) 3));
    ("X-Pigeon-Session-Id", JStr (pigeonSessionId st));
    ("X-IG-Connection-Type", JStr (HEADER_CONNECTION_TYPE K));
    ("X-IG-Capabilities", JStr (HEADER_CAPABILITIES K));
    ("X-IG-App-ID", JStr (FACEBOOK_ANALYTICS_APPLICATION_ID K));
    ("X-Bloks-Version-Id", JStr (BLOKS_VERSION_ID K));
    ("X-IG-App-Locale", JStr (LANGUAGE K));
    ("X-IG-Device-Locale", JStr (LANGUAGE K));
    ("X-IG-Device-ID", JStr (uuid st));
    ("X-IG-Android-ID", JStr (deviceId st));
    ("X-DEVICE-ID", JStr (uuid st));
    ("X-MID", getCookieValue st "mid");
    ("Accept-Language",
     JStr (Text.replace_first "_"%char "-"%char (LANGUAGE K)));
    ("Accept-Encoding", JStr "gzip");
    ("User-Agent", JStr (appUserAgent st));
    ("Authorization", JStr (authorization st));
    ("Host", JStr (API_HOST K));
    ("Connection", JStr "close") ].

(** The constructor: the client instance of this [Request]. *)
Definition got : Instance :=
  Got.extend (API_URL K) [afterResponse].

(** The two merged maps of [send]. *)
Definition send_headers (st : State) (now : Z)
           (options : RequestOptions) : JSObject :=
  spread2 (headers st now) (or_empty (ro_headers options)).

Definition send_data (st : State) (options : RequestOptions)
  : JSObject :=
  spread2 (data st) (or_empty (ro_data options)).

(** The [requestOptions] literal of [send]. *)
Definition requestOptions (st : State) (now : Z)
           (options : RequestOptions) : Options :=
  let headers := send_headers st now options in
  let data := send_data st options in
  let form := signData data in
  {| url := ro_url options;
     method := or_string (ro_method options) "GET";
     responseType := "json";
     Got.headers := headers;
     body := None;
     json := None;
     form := Some form |}.

(** [send]: build the request, await the client, return the decoded
    body.  The result is the state after the call and the outcome of
    the promise. *)
Definition send (net : Transport) (now : Z)
           (options : RequestOptions) (st : State)
  : State * Settled JSValue :=
  match Got.request got net (requestOptions st now options) st with
  | (st', Fulfilled response) =>
      (st', Fulfilled (body_value (responseBody response)))
  | (st', Rejected e) => (st', Rejected e)
  end.

(** The exchange that a call to [send] gives rise to. *)
Definition exchange_of (net : Transport) (now : Z)
           (options : RequestOptions) (st : State) : Exchange :=
  Got.exchange got net (requestOptions st now options) (cookieJar st).

End WithConstants.

(** The descriptor [options] with other body fields. *)
Definition with_data (d : option JSObject) (options : RequestOptions)
  : RequestOptions :=
  {| ro_url := ro_url options;
     ro_method := ro_method options;
     ro_headers := ro_headers options;
     ro_data := d |}.

End Request.

(* ================================================================== *)
(** ** The receiving side, and sample data *)

Module Receiver.
Import Session.

(** What the receiver of a signed body does before it decodes it: cut at
    the first full stop, recompute the signature of what follows, and
    accept that text when the two signatures agree. *)
Definition verify (K : Constants) (signed : string) : option string :=
  match Text.split_at "."%char (list_ascii_of_string signed) with
  | Some (sig, text) =>
      let text := string_of_list_ascii text in
      if String.eqb (Request.sign K text) (string_of_list_ascii sig)
      then Some text else None
  | None => None
  end.

End Receiver.

Module Sample.
Import JS Session Got Request.

(** Stand-ins for the constants (the real values are configuration). *)
Definition K0 : Constants :=
  {| API_URL := "https://api.example/v1/";
     API_HOST := "api.example";
     SIGNATURE_KEY := "0123456789abcdef";
     SIGNATURE_VERSION := "4";
     HEADER_CONNECTION_TYPE := "WIFI";
     HEADER_CAPABILITIES := "3brTvw==";
     FACEBOOK_ANALYTICS_APPLICATION_ID := "1";
     BLOKS_VERSION_ID := "b1";
     LANGUAGE := "en_US" |}.

Definition st0 : State :=
  {| cookieJar := [("mid", "m-1")];
     csrfToken := "tok";
     uuid := "u-1";
     deviceId := "android-1";
     pigeonSessionId := "p-1";
     appUserAgent := "agent";
     authorization := "Bearer old";
     igWWWClaim := "hmac.old";
     passwordEncryptionKeyId := "7";
     passwordEncryptionPublicKey := "pk-old" |}.

(** [send({url: "foo", method: "POST", data: {x: 1}})] *)
Definition call_foo : RequestOptions :=
  {| ro_url := "foo";
     ro_method := Some "POST";
     ro_headers := None;
     ro_data := Some [("x", JNum 1)] |}.

(** A call that overrides one default header and the default field. *)
Definition call_override : RequestOptions :=
  {| ro_url := "bar";
     ro_method := None;
     ro_headers := Some [("Connection", JStr "keep-alive");
                         ("X-Extra", JStr "1")];
     ro_data := Some [("_csrfToken", JStr "mine"); ("id", JNum 7)] |}.

(** A transport that echoes the form it is sent, with status 200. *)
Definition echo : Transport :=
  fun _ jar o =>
    {| retried := [];
       outcome :=
         Responded jar
           {| statusCode := 200;
              responseHeaders := [];
              responseBody :=
                Decoded
                  (match form o with
                   | Some f => JObj [("ig_sig_key_version",
                                      JStr (ig_sig_key_version f));
                                     ("signed_body", JStr (signed_body f))]
                   | None => JNull
                   end) |} |}.

(** A response carrying the four tracked headers, and one carrying an
    array where a string is expected. *)
Definition tracked_headers : JSObject :=
  [("content-type", JStr "application/json");
   ("x-ig-set-www-claim", JStr "hmac.new");
   ("ig-set-authorization", JStr "Bearer new");
   ("ig-set-password-encryption-key-id", JStr "8");
   ("ig-set-password-encryption-pub-key", JStr "pk-new")].

Definition array_headers : JSObject :=
  [("ig-set-authorization", JArr [JStr "Bearer a"; JStr "Bearer b"])].

Definition respond (status : Z) (hs : JSObject) (b : Body) : Transport :=
  fun _ jar _ =>
    {| retried := [];
       outcome :=
         Responded jar
           {| statusCode := status; responseHeaders := hs;
              responseBody := b |} |}.

(** A request that is answered 503 with a new authorization, retried,
    and then answered 200 without the tracked headers. *)
Definition busy_then_ok : Transport :=
  fun _ jar _ =>
    {| retried :=
         [(jar, {| statusCode := 503;
                   responseHeaders :=
                     [("ig-set-authorization", JStr "Bearer busy")];
                   responseBody := Undecoded "busy" |})];
       outcome :=
         Responded jar
           {| statusCode := 200; responseHeaders := [];
              responseBody := Decoded (JObj [("status", JStr "ok")]) |} |}.

(** A call without a method, which [send] makes a GET, and the same
    call as a PUT. *)
Definition call_get : RequestOptions :=
  {| ro_url := "feed"; ro_method := None;
     ro_headers := None; ro_data := None |}.

Definition call_put : RequestOptions :=
  {| ro_url := "feed"; ro_method := Some "PUT";
     ro_headers := None; ro_data := None |}.

(** A 200 answer that carries the tracked headers and a body that is
    not JSON. *)
Definition not_json : Transport :=
  respond 200 tracked_headers (Undecoded "<html>").

(** The constants with another signing key. *)
Definition keyed (key : string) : Constants :=
  {| API_URL := API_URL K0;
     API_HOST := API_HOST K0;
     SIGNATURE_KEY := key;
     SIGNATURE_VERSION := SIGNATURE_VERSION K0;
     HEADER_CONNECTION_TYPE := HEADER_CONNECTION_TYPE K0;
     HEADER_CAPABILITIES := HEADER_CAPABILITIES K0;
     FACEBOOK_ANALYTICS_APPLICATION_ID :=
       FACEBOOK_ANALYTICS_APPLICATION_ID K0;
     BLOKS_VERSION_ID := BLOKS_VERSION_ID K0;
     LANGUAGE := LANGUAGE K0 |}.

(** Everything the network is handed, as one value. *)
Definition describe (prefix : string) (jar : CookieJar) (o : Options)
  : JSValue :=
  JObj [("prefixUrl", JStr prefix);
        ("cookies", JObj (map (fun c => (fst c, JStr (snd c))) jar));
        ("url", JStr (url o));
        ("method", JStr (method o));
        ("responseType", JStr (responseType o));
        ("headers", JObj (Got.headers o));
        ("body", match body o with Some b => JStr b | None => JUndefined end);
        ("json", match json o with Some v => v | None => JUndefined end);
        ("form", match form o with
                 | Some f => JObj [("ig_sig_key_version",
                                    JStr (ig_sig_key_version f));
                                   ("signed_body", JStr (signed_body f))]
                 | None => JUndefined
                 end)].

(** A transport that answers 200 with the description of what it was
    handed. *)
Definition reflect : Transport :=
  fun prefix jar o =>
    {| retried := [];
       outcome :=
         Responded jar
           {| statusCode := 200; responseHeaders := [];
              responseBody := Decoded (describe prefix jar o) |} |}.

(** A 404 answer with a JSON body and the tracked headers. *)
Definition not_found : Transport :=
  respond 404 tracked_headers
          (Decoded (JObj [("status", JStr "fail")])).

End Sample.

(* ================================================================== *)
(** ** The shape of a merged object *)

Module Merge.
Import JS.

(** A property of the first object as it stands after the spread of the
    second: same key, the second object's value when it has the key. *)
Definition overridden (b : JSObject) (kv : string * JSValue)
  : string * JSValue :=
  (fst kv, match lookup (fst kv) b with Some v => v | None => snd kv end).

(** A property whose key the object [a] does not have. *)
Definition fresh (a : JSObject) (kv : string * JSValue) : bool :=
  negb (has (fst kv) a).

(** Keys that are not array indices (and so are enumerated in creation
    order). *)
Definition plain_keys (o : JSObject) : Prop :=
  Forall (fun k => array_index k = None) (keys o).

(** Array-index keys, and their order. *)
Definition is_index (kv : string * JSValue) : bool :=
  match array_index (fst kv) with Some _ => true | None => false end.

Definition index_before (a b : string * JSValue) : Prop :=
  exists i j, array_index (fst a) = Some i
              /\ array_index (fst b) = Some j /\ i < j.

(** A response that carries none of the tracked headers. *)
Definition untracked (r : Got.Response) : Prop :=
  forall t, lookup (Request.header_name t) (Got.responseHeaders r) = None.

End Merge.

(* ================================================================== *)
(** ** The signed envelope as the description of [signData] words it *)

Module Stated.
Import JS Session Got.

(** The object a caller makes by creating the properties [ins] one
    after the other, as an object literal does. *)
Definition object_of (ins : list (string * JSValue)) : JSObject :=
  copy ins [].

(** The JSON text that lists the properties in the order they were
    created in. *)
Definition insertion_order_json (ins : list (string * JSValue))
  : string :=
  ("{" ++ Text.join ","
            (flat_map
               (fun kv =>
                  if JSON.is_undefined (snd kv) then []
                  else [JSON.quote (fst kv) ++ ":"
                          ++ JSON.serialize (snd kv)])
               ins)
       ++ "}")%string.

(** The envelope over that text. *)
Definition signData (K : Constants) (ins : list (string * JSValue))
  : SignedFormBody :=
  let json := insertion_order_json ins in
  {| ig_sig_key_version := SIGNATURE_VERSION K;
     signed_body := (Request.sign K json ++ "." ++ json)%string |}.

End Stated.

(* ================================================================== *)
(** * Properties *)

Module TextFacts.
Import Text.

Lemma list_string_inv (cs : list ascii) :
  list_ascii_of_string (string_of_list_ascii cs) = cs.
Proof. apply list_ascii_of_string_of_list_ascii. Qed.

Lemma chars_app (s t : string) :
  list_ascii_of_string (s ++ t) = list_ascii_of_string s ++ list_ascii_of_string t.
Proof. induction s as [|c s IH]; simpl; [reflexivity | now rewrite IH]. Qed.

Lemma append_assoc (s t u : string) :
  ((s ++ t) ++ u = s ++ (t ++ u))%string.
Proof. induction s as [|c s IH]; simpl; [reflexivity | now rewrite IH]. Qed.

Lemma string_length_chars (s : string) :
  String.length s = List.length (list_ascii_of_string s).
Proof. induction s; simpl; congruence. Qed.

Lemma hexdigit_lower (d : Z) : is_lower_hex (hexdigit d) = true.
Proof.
  unfold hexdigit.
  assert (H : 0 <= d mod 16 < 16) by (apply Z.mod_pos_bound; lia).
  assert (E : exists n, (n < 16)%nat /\ Z.to_nat (d mod 16) = n).
  { exists (Z.to_nat (d mod 16)); split; [lia | reflexivity]. }
  destruct E as (n & Hn & ->).
  do 16 (destruct n as [|n]; [reflexivity|]). lia.
Qed.

Lemma hex_chars (bs : list Z) :
  forallb is_lower_hex (list_ascii_of_string (hex bs)) = true.
Proof.
  unfold hex. rewrite list_string_inv.
  induction bs as [|b bs IH]; simpl; [reflexivity|].
  now rewrite !hexdigit_lower, IH.
Qed.

Lemma hex_length (bs : list Z) :
  String.length (hex bs) = (2 * List.length bs)%nat.
Proof.
  rewrite string_length_chars. unfold hex. rewrite list_string_inv.
  induction bs as [|b bs IH]; simpl; [reflexivity | rewrite IH; lia].
Qed.

Lemma split_at_first (sep : ascii) (a b : list ascii) :
  forallb (fun c => negb (Ascii.eqb c sep)) a = true ->
  split_at sep (a ++ sep :: b) = Some (a, b).
Proof.
  induction a as [|c a IH]; simpl; intros H.
  - now rewrite Ascii.eqb_refl.
  - apply andb_true_iff in H as [Hc Ha].
    apply negb_true_iff in Hc. rewrite Hc, (IH Ha). reflexivity.
Qed.

Lemma forallb_impl {A} (p q : A -> bool) (l : list A) :
  (forall x, p x = true -> q x = true) ->
  forallb p l = true -> forallb q l = true.
Proof.
  intros Hpq. rewrite !forallb_forall. auto.
Qed.

Lemma lower_hex_not_dot (c : ascii) :
  is_lower_hex c = true -> negb (Ascii.eqb c ".") = true.
Proof.
  intros H. apply negb_true_iff, Ascii.eqb_neq. intros ->.
  discriminate H.
Qed.

Lemma digit_not_dot (c : ascii) :
  is_digit c = true -> negb (Ascii.eqb c ".") = true.
Proof.
  intros H. apply negb_true_iff, Ascii.eqb_neq. intros ->.
  discriminate H.
Qed.

Lemma code_digit (d : Z) : code (digit d) = 48 + d mod 10.
Proof.
  unfold code, digit.
  assert (H : 0 <= d mod 10 < 10) by (apply Z.mod_pos_bound; lia).
  rewrite N_ascii_embedding by lia. lia.
Qed.

Lemma digit_is_digit (d : Z) : is_digit (digit d) = true.
Proof.
  unfold is_digit. rewrite code_digit.
  assert (H : 0 <= d mod 10 < 10) by (apply Z.mod_pos_bound; lia).
  apply andb_true_iff; split; apply Z.leb_le; lia.
Qed.

Lemma digits_value_app (xs ys : list ascii) :
  digits_value (xs ++ ys)
  = digits_value xs * 10 ^ Z.of_nat (List.length ys) + digits_value ys.
Proof.
  unfold digits_value. rewrite fold_left_app.
  generalize (fold_left (fun acc c => 10 * acc + (code c - 48)) xs 0).
  induction ys as [|y ys IH] using rev_ind; intros a.
  - cbn [fold_left List.length]. change (10 ^ Z.of_nat 0) with 1. lia.
  - rewrite !fold_left_app. cbn [fold_left]. rewrite IH.
    rewrite length_app, Nat2Z.inj_add, Z.pow_add_r by lia.
    cbn [List.length]. change (10 ^ Z.of_nat 1) with 10.
    generalize (fold_left (fun acc c => 10 * acc + (code c - 48)) ys 0).
    intros. lia.
Qed.

(** The digit loop, for enough fuel. *)
Lemma digits_from_spec (fuel : nat) :
  forall n acc, 0 <= n < 2 ^ Z.of_nat fuel -> (1 <= fuel)%nat ->
    exists ds, digits_from fuel n acc = ds ++ acc
               /\ ds <> []
               /\ forallb is_digit ds = true
               /\ digits_value ds = n.
Proof.
  induction fuel as [|fuel IH]; intros n acc Hn Hf; [lia|].
  simpl. destruct (n <? 10) eqn:E.
  - apply Z.ltb_lt in E. exists [digit n]. repeat split.
    + discriminate.
    + simpl. now rewrite digit_is_digit.
    + unfold digits_value. simpl. rewrite code_digit.
      rewrite Z.mod_small; lia.
  - apply Z.ltb_ge in E.
    assert (Hp : 2 ^ Z.of_nat (S fuel) = 2 * 2 ^ Z.of_nat fuel).
    { rewrite Nat2Z.inj_succ, Z.pow_succ_r; lia. }
    assert (Hf' : (1 <= fuel)%nat).
    { destruct fuel; [simpl in Hp; lia | lia]. }
    destruct (IH (n / 10) (digit n :: acc)) as (ds & E1 & _ & Hd & Hv); auto.
    { split; [apply Z.div_pos; lia|].
      apply Z.div_lt_upper_bound; lia. }
    exists (ds ++ [digit n]). repeat split.
    + rewrite E1, <- app_assoc. reflexivity.
    + destruct ds; discriminate.
    + rewrite forallb_app, Hd. simpl. now rewrite digit_is_digit.
    + rewrite digits_value_app, Hv. unfold digits_value at 1. simpl.
      rewrite code_digit. change (10 ^ 1) with 10.
      pose proof (Z.div_mod n 10). lia.
Qed.

Lemma digits_spec (n : Z) : 0 <= n ->
  digits n <> [] /\ forallb is_digit (digits n) = true
  /\ digits_value (digits n) = n.
Proof.
  intros Hn. unfold digits.
  destruct (digits_from_spec (S (Z.to_nat (Z.log2 n))) n []) as (ds & E & H).
  - split; [assumption|].
    destruct (Z.eq_dec n 0) as [->|Hz]; [reflexivity|].
    rewrite Nat2Z.inj_succ, Z2Nat.id by apply Z.log2_nonneg.
    apply Z.log2_spec. lia.
  - lia.
  - rewrite E, app_nil_r. exact H.
Qed.

End TextFacts.

Module CryptoFacts.
Import Text TextFacts.

Lemma digest_length (msg : list Z) :
  List.length (SHA256.digest msg) = 32%nat.
Proof. reflexivity. Qed.

(** Node's incremental object computes the RFC 2104 construction. *)
Lemma createHmac_update_digest (key data : string) :
  Crypto.digest (Crypto.update (Crypto.createHmac Crypto.sha256 key) data)
                Crypto.hex
  = hex (HMAC.hmac_sha256 (utf8 key) (utf8 data)).
Proof. reflexivity. Qed.

(** Feeding the text in pieces gives the digest of the whole text. *)
Lemma update_update (h : Crypto.Hmac) (s t : string) :
  Crypto.update (Crypto.update h s) t = Crypto.update h (s ++ t).
Proof.
  unfold Crypto.update. cbn [Crypto.alg Crypto.outer Crypto.inner].
  f_equal. unfold utf8. rewrite chars_app, map_app, app_assoc. reflexivity.
Qed.

Lemma hmac_hex_length (key text : list Z) :
  String.length (hex (HMAC.hmac_sha256 key text)) = 64%nat.
Proof. rewrite hex_length. reflexivity. Qed.

End CryptoFacts.

Module ObjectFacts.
Import JS.

Lemma lookup_none_iff (k : string) (o : JSObject) :
  lookup k o = None <-> ~ In k (keys o).
Proof.
  induction o as [|[k' v'] o IH]; simpl.
  - tauto.
  - destruct (String.eqb_spec k k') as [->|Hne].
    + split; [discriminate | intros H; exfalso; apply H; now left].
    + rewrite IH. split; intros H; [intros [E|E]; [congruence | tauto] | tauto].
Qed.

Lemma lookup_replace (k k' : string) (v : JSValue) (o : JSObject) :
  has k o = true ->
  lookup k' (replace k v o)
  = if String.eqb k' k then Some v else lookup k' o.
Proof.
  unfold has. induction o as [|[k1 v1] o IH]; simpl; [discriminate|].
  destruct (String.eqb_spec k k1) as [->|Hne]; intros H; simpl.
  - destruct (String.eqb_spec k' k1); reflexivity.
  - rewrite (IH H).
    destruct (String.eqb_spec k' k1) as [->|]; [|reflexivity].
    destruct (String.eqb_spec k1 k); [congruence | reflexivity].
Qed.

Lemma lookup_insert_index (i : Z) (k k' : string) (v : JSValue)
      (o : JSObject) :
  lookup k o = None ->
  lookup k' (insert_index i k v o)
  = if String.eqb k' k then Some v else lookup k' o.
Proof.
  induction o as [|[k1 v1] o IH]; simpl; intros H.
  - reflexivity.
  - destruct (String.eqb_spec k k1) as [->|Hne]; [discriminate|].
    destruct (array_index k1) as [j|]; [destruct (j <? i)|]; simpl;
      try reflexivity.
    rewrite (IH H).
    destruct (String.eqb_spec k' k1) as [->|]; [|reflexivity].
    destruct (String.eqb_spec k1 k); [congruence | reflexivity].
Qed.

Lemma lookup_app_new (k k' : string) (v : JSValue) (o : JSObject) :
  lookup k o = None ->
  lookup k' (o ++ [(k, v)])
  = if String.eqb k' k then Some v else lookup k' o.
Proof.
  induction o as [|[k1 v1] o IH]; simpl; intros H.
  - reflexivity.
  - destruct (String.eqb_spec k k1) as [->|Hne]; [discriminate|].
    rewrite (IH H).
    destruct (String.eqb_spec k' k1) as [->|]; [|reflexivity].
    destruct (String.eqb_spec k1 k); [congruence | reflexivity].
Qed.

(** Reading after [CreateDataProperty]. *)
Lemma lookup_set (k k' : string) (v : JSValue) (o : JSObject) :
  lookup k' (set o k v) = if String.eqb k' k then Some v else lookup k' o.
Proof.
  unfold set. destruct (has k o) eqn:E.
  - now apply lookup_replace.
  - assert (H : lookup k o = None).
    { unfold has in E. destruct (lookup k o); [discriminate | reflexivity]. }
    destruct (array_index k);
      [now apply lookup_insert_index | now apply lookup_app_new].
Qed.

(** A key the source does not have is read from the target. *)
Lemma lookup_copy_absent (k : string) (src : JSObject) :
  forall dst, lookup k src = None -> lookup k (copy src dst) = lookup k dst.
Proof.
  unfold copy. induction src as [|[k1 v1] src IH]; simpl; intros dst H.
  - reflexivity.
  - destruct (String.eqb_spec k k1) as [->|Hne]; [discriminate|].
    rewrite (IH _ H), lookup_set.
    destruct (String.eqb_spec k k1); [congruence | reflexivity].
Qed.

(** Reading after a spread element: the source wins. *)
Lemma lookup_copy (k : string) (src : JSObject) :
  forall dst, NoDup (keys src) ->
    lookup k (copy src dst)
    = match lookup k src with
      | Some v => Some v
      | None => lookup k dst
      end.
Proof.
  induction src as [|[k1 v1] src IH]; simpl; intros dst Hnd.
  - reflexivity.
  - inversion Hnd as [|? ? Hnotin Hnd']; subst.
    destruct (String.eqb_spec k k1) as [->|Hne].
    + change (copy ((k1, v1) :: src) dst) with (copy src (set dst k1 v1)).
      rewrite lookup_copy_absent by (now apply lookup_none_iff).
      rewrite lookup_set, String.eqb_refl. reflexivity.
    + change (copy ((k1, v1) :: src) dst) with (copy src (set dst k1 v1)).
      rewrite (IH _ Hnd'), lookup_set.
      destruct (String.eqb_spec k k1); [congruence | reflexivity].
Qed.

(** Reading from [{ ...a, ...b }]. *)
Lemma lookup_spread2 (k : string) (a b : JSObject) :
  NoDup (keys a) -> NoDup (keys b) ->
  lookup k (spread2 a b)
  = match lookup k b with
    | Some v => Some v
    | None => lookup k a
    end.
Proof.
  intros Ha Hb. unfold spread2.
  rewrite (lookup_copy k b _ Hb), (lookup_copy k a _ Ha).
  destruct (lookup k b); [reflexivity|].
  destruct (lookup k a); reflexivity.
Qed.

End ObjectFacts.

Module NumberFacts.
Import Text TextFacts Number.

(** Rounding to nearest moves by at most half a unit. *)
Lemma round_nearest_even_error (num den : Z) :
  0 <= num -> 0 < den ->
  0 <= round_nearest_even num den
  /\ - den <= 2 * (den * round_nearest_even num den - num) <= den.
Proof.
  intros Hn Hd. unfold round_nearest_even.
  pose proof (Z.div_mod num den ltac:(lia)) as E.
  pose proof (Z.mod_pos_bound num den Hd) as B.
  pose proof (Z.div_pos num den Hn Hd) as Q.
  set (q := num / den) in *. set (r := num mod den) in *.
  destruct (2 * r <? den) eqn:E1; [apply Z.ltb_lt in E1; lia|].
  apply Z.ltb_ge in E1.
  destruct (den <? 2 * r) eqn:E2; [apply Z.ltb_lt in E2; lia|].
  apply Z.ltb_ge in E2.
  destruct (Z.even q); lia.
Qed.

(** Dividing a clock reading by 1000: the exponent is at most [-10] and
    the significand is the scaled quotient rounded to nearest. *)
Lemma fdiv_1000 (a : Z) :
  0 < a <= max_time ->
  exists m e,
    fdiv a 1000 = {| mant := m; expo := e |}
    /\ e <= -10
    /\ 0 <= m
    /\ - 500 <= 1000 * m - a * 2 ^ (- e) <= 500.
Proof.
  unfold max_time. intros Ha. unfold fdiv.
  destruct (a =? 0) eqn:Ez; [apply Z.eqb_eq in Ez; lia|].
  rewrite (Z.abs_eq a) by lia.
  change (Z.abs 1000) with 1000. change (Z.log2 1000) with 9.
  rewrite (Z.sgn_pos a) by lia. change (Z.sgn 1000) with 1.
  assert (Hl : 0 <= Z.log2 a <= 52).
  { split; [apply Z.log2_nonneg|].
    apply Z.lt_succ_r. apply Z.log2_lt_pow2; [lia|]. simpl. lia. }
  set (e0 := Z.log2 a - 9 - 53).
  assert (He0 : scaled a 1000 e0 = (a * 2 ^ (- e0), 1000)).
  { unfold scaled. destruct (0 <=? e0) eqn:E; [apply Z.leb_le in E|];
      [unfold e0 in E; lia | reflexivity]. }
  rewrite He0. cbn [fst snd].
  set (e := if a * 2 ^ (- e0) <? 2 ^ 53 * 1000 then e0 else e0 + 1).
  assert (He : e <= -10).
  { unfold e. destruct (a * 2 ^ (- e0) <? 2 ^ 53 * 1000) eqn:E.
    - unfold e0. lia.
    - apply Z.ltb_ge in E.
      assert (Z.log2 a <> 52); [|unfold e0; lia].
      intros H52. unfold e0 in E. rewrite H52 in E.
      change (2 ^ (- (52 - 9 - 53))) with 1024 in E.
      change (2 ^ 53 * 1000) with 9007199254740992000 in E. lia. }
  assert (Hs : scaled a 1000 e = (a * 2 ^ (- e), 1000)).
  { unfold scaled. destruct (0 <=? e) eqn:E; [apply Z.leb_le in E; lia|].
    reflexivity. }
  rewrite Hs. cbn [fst snd].
  assert (Hp : 0 < 2 ^ (- e)) by (apply Z.pow_pos_nonneg; lia).
  destruct (round_nearest_even_error (a * 2 ^ (- e)) 1000) as [Hm Hr];
    [nia | lia |].
  exists (round_nearest_even (a * 2 ^ (- e)) 1000), e.
  repeat split; try lia.
  f_equal. lia.
Qed.

(** [toFixed(3)] of that quotient picks the clock reading itself. *)
Lemma nearest_scaled_1000 (a m e : Z) :
  0 <= a -> e <= -10 ->
  - 500 <= 1000 * m - a * 2 ^ (- e) <= 500 ->
  nearest_scaled {| mant := m; expo := e |} 3 = a.
Proof.
  intros Ha He Hm. unfold nearest_scaled. cbn [mant expo].
  destruct (0 <=? e) eqn:E; [apply Z.leb_le in E; lia|].
  change (10 ^ 3) with 1000.
  assert (Hd : 1024 <= 2 ^ (- e)).
  { change 1024 with (2 ^ 10). apply Z.pow_le_mono_r; lia. }
  set (d := 2 ^ (- e)) in *.
  symmetry. apply Z.div_unique with (r := 2 * (m * 1000) + d - 2 * d * a).
  - left. nia.
  - ring.
Qed.

(** Digits, padded and cut three from the end. *)
Lemma padded_digits (n : Z) :
  0 <= n ->
  let m := digits n in
  let m := if (List.length m <=? 3)%nat
           then repeat "0"%char (3 + 1 - List.length m) ++ m else m in
  let k := List.length m in
  let ip := firstn (k - 3) m in
  let fp := skipn (k - 3) m in
  ip <> [] /\ forallb is_digit ip = true
  /\ List.length fp = 3%nat /\ forallb is_digit fp = true
  /\ digits_value ip * 1000 + digits_value fp = n.
Proof.
  intros Hn. destruct (digits_spec n Hn) as (Hne & Hd & Hv).
  set (ds := digits n) in *.
  cbv zeta.
  set (m := if (List.length ds <=? 3)%nat
            then repeat "0"%char (3 + 1 - List.length ds) ++ ds else ds).
  assert (Hlen : (4 <= List.length m)%nat).
  { unfold m. destruct (List.length ds <=? 3)%nat eqn:E.
    - apply Nat.leb_le in E. rewrite length_app, repeat_length. lia.
    - apply Nat.leb_gt in E. lia. }
  assert (Hdig : forallb is_digit m = true).
  { unfold m. destruct (List.length ds <=? 3)%nat; [|exact Hd].
    rewrite forallb_app, Hd, andb_true_r.
    generalize (3 + 1 - List.length ds)%nat. intros j.
    induction j; simpl; auto. }
  assert (Hval : digits_value m = n).
  { unfold m. destruct (List.length ds <=? 3)%nat; [|exact Hv].
    rewrite digits_value_app, Hv.
    generalize (3 + 1 - List.length ds)%nat. intros j.
    assert (digits_value (repeat "0"%char j) = 0); [|lia].
    induction j as [|j IH]; [reflexivity|].
    change (repeat "0"%char (S j)) with (["0"%char] ++ repeat "0"%char j).
    rewrite digits_value_app, IH. reflexivity. }
  pose proof (firstn_skipn (List.length m - 3) m) as Hsplit.
  set (ip := firstn (List.length m - 3) m) in *.
  set (fp := skipn (List.length m - 3) m) in *.
  assert (Hfp : List.length fp = 3%nat).
  { unfold fp. rewrite length_skipn. lia. }
  rewrite <- Hsplit in Hdig, Hval.
  rewrite forallb_app in Hdig. apply andb_true_iff in Hdig as [Hi Hf].
  rewrite digits_value_app, Hfp in Hval.
  repeat split; auto.
  intros Hnil. assert (List.length ip = 0%nat) by now rewrite Hnil.
  unfold ip in H. rewrite length_firstn in H. lia.
Qed.

(** The timestamp text: [<digits>.<three digits>], worth exactly the
    clock reading. *)
Lemma toFixed_fdiv_1000 (now : Z) :
  0 <= now <= max_time ->
  exists ip fp,
    toFixed (fdiv now 1000) 3
    = (string_of_list_ascii ip ++ "." ++ string_of_list_ascii fp)%string
    /\ ip <> [] /\ forallb is_digit ip = true
    /\ List.length fp = 3%nat /\ forallb is_digit fp = true
    /\ digits_value ip * 1000 + digits_value fp = now.
Proof.
  intros Hn.
  assert (E : exists x, fdiv now 1000 = x /\ 0 <= mant x
                        /\ nearest_scaled x 3 = now).
  { destruct (Z.eq_dec now 0) as [->|Hz].
    - exists {| mant := 0; expo := 0 |}.
      repeat split; try reflexivity; simpl; lia.
    - destruct (fdiv_1000 now) as (m & e & E & He & Hm & Hr); [lia|].
      exists {| mant := m; expo := e |}. repeat split; auto.
      apply nearest_scaled_1000; lia. }
  destruct E as (x & -> & Hm & Hx).
  unfold toFixed.
  assert (Hneg : (mant x <? 0) = false) by (apply Z.ltb_ge; lia).
  rewrite Hneg, (Z.abs_eq (mant x)) by lia.
  replace {| mant := mant x; expo := expo x |} with x by now destruct x.
  change (Z.of_nat 3) with 3. rewrite Hx.
  pose proof (padded_digits now ltac:(lia)) as P. cbv zeta in P.
  destruct P as (P1 & P2 & P3 & P4 & P5).
  eexists _, _. split; [reflexivity|]. repeat split; assumption.
Qed.

Lemma read_fixed3_spec (ip fp : list ascii) :
  ip <> [] -> forallb is_digit ip = true ->
  List.length fp = 3%nat -> forallb is_digit fp = true ->
  read_fixed3 (string_of_list_ascii ip ++ "." ++ string_of_list_ascii fp)
  = Some (digits_value ip * 1000 + digits_value fp).
Proof.
  intros Hne Hi Hl Hf. unfold read_fixed3.
  rewrite chars_app. cbn [append]. cbn [list_ascii_of_string].
  rewrite !list_string_inv.
  rewrite split_at_first
    by (eapply forallb_impl; [apply digit_not_dot | exact Hi]).
  rewrite Hi, Hf, Hl. destruct ip; [congruence | reflexivity].
Qed.

End NumberFacts.


Module RequestFacts.
Import JS Session Got Request.
Import Text TextFacts ObjectFacts.

(** *** The response hook, field by field *)

(** Case analysis on what the four tracked headers of [r] hold. *)
Ltac tracked_cases r :=
  unfold updateStateFromResponse, assign_if_string;
  destruct (as_string (get (responseHeaders r) "x-ig-set-www-claim"));
  destruct (as_string (get (responseHeaders r) "ig-set-authorization"));
  destruct (as_string (get (responseHeaders r)
                           "ig-set-password-encryption-key-id"));
  destruct (as_string (get (responseHeaders r)
                           "ig-set-password-encryption-pub-key")).

Lemma updateStateFromResponse_field (t : Tracked) (r : Response)
      (st : State) :
  field t (updateStateFromResponse r st)
  = match as_string (get (responseHeaders r) (header_name t)) with
    | Some s => s
    | None => field t st
    end.
Proof. destruct t; cbn [header_name]; tracked_cases r; reflexivity. Qed.

Lemma updateStateFromResponse_frame (r : Response) (st : State) :
  same_untracked st (updateStateFromResponse r st).
Proof.
  unfold same_untracked, same_readonly. tracked_cases r; repeat split.
Qed.

Lemma state_eta (st : State) :
  {| cookieJar := cookieJar st; csrfToken := csrfToken st;
     uuid := uuid st; deviceId := deviceId st;
     pigeonSessionId := pigeonSessionId st;
     appUserAgent := appUserAgent st;
     authorization := authorization st;
     igWWWClaim := igWWWClaim st;
     passwordEncryptionKeyId := passwordEncryptionKeyId st;
     passwordEncryptionPublicKey := passwordEncryptionPublicKey st |} = st.
Proof. now destruct st. Qed.

(** Two states with the same fields are the same state. *)
Lemma state_ext (st st' : State) :
  same_untracked st st' ->
  (forall t, field t st' = field t st) ->
  st' = st.
Proof.
  intros (H1 & H2 & H3 & H4 & H5 & H6) Hf.
  pose proof (Hf WWWClaim) as F1. pose proof (Hf Authorization) as F2.
  pose proof (Hf PasswordEncryptionKeyId) as F3.
  pose proof (Hf PasswordEncryptionPublicKey) as F4.
  destruct st, st'. cbn in *. subst. reflexivity.
Qed.

(** *** A run of responses *)

Lemma apply_hook_field (t : Tracked) (st : State) (r : Response) :
  field t (apply_hook st r) = pick t (field t st) r.
Proof.
  unfold apply_hook, pick. rewrite updateStateFromResponse_field.
  unfold get.
  destruct (lookup (header_name t) (responseHeaders r)) as [[]|];
    destruct t; reflexivity.
Qed.

Lemma same_untracked_refl (st : State) : same_untracked st st.
Proof. repeat split. Qed.

Lemma same_untracked_trans (a b c : State) :
  same_untracked a b -> same_untracked b c -> same_untracked a c.
Proof.
  unfold same_untracked, same_readonly.
  intros (A0 & A1 & A2 & A3 & A4 & A5) (B0 & B1 & B2 & B3 & B4 & B5).
  repeat split; congruence.
Qed.

Lemma fold_hook_field (t : Tracked) (l : list Response) :
  forall st, field t (fold_left apply_hook l st)
             = fold_left (pick t) l (field t st).
Proof.
  induction l as [|r l IH]; intros st; cbn [fold_left]; [reflexivity|].
  rewrite IH, apply_hook_field. reflexivity.
Qed.

Lemma fold_hook_frame (l : list Response) :
  forall st, same_untracked st (fold_left apply_hook l st).
Proof.
  induction l as [|r l IH]; intros st; cbn [fold_left].
  - apply same_untracked_refl.
  - eapply same_untracked_trans;
      [apply updateStateFromResponse_frame | apply IH].
Qed.

(** The hook and the storing of cookies do not see each other. *)
Lemma hook_set_cookieJar (r : Response) (jar : CookieJar) (st : State) :
  updateStateFromResponse r (set_cookieJar jar st)
  = set_cookieJar jar (updateStateFromResponse r st).
Proof. tracked_cases r; reflexivity. Qed.

Lemma set_cookieJar_twice (j j' : CookieJar) (st : State) :
  set_cookieJar j (set_cookieJar j' st) = set_cookieJar j st.
Proof. reflexivity. Qed.

Lemma set_cookieJar_same (st : State) : set_cookieJar (cookieJar st) st = st.
Proof. unfold set_cookieJar. apply state_eta. Qed.

Lemma last_cons {A} (a d : A) (l : list A) : last (a :: l) d = last l a.
Proof.
  revert a d. induction l as [|b l IH]; intros a d; [reflexivity|].
  change (last (a :: b :: l) d) with (last (b :: l) d).
  rewrite (IH b d), (IH b a). reflexivity.
Qed.

Lemma fold_hook_set_cookieJar (l : list Response) :
  forall jar st,
    fold_left apply_hook l (set_cookieJar jar st)
    = set_cookieJar jar (fold_left apply_hook l st).
Proof.
  induction l as [|r l IH]; intros jar st; cbn [fold_left]; [reflexivity|].
  unfold apply_hook at 2. rewrite hook_set_cookieJar. apply IH.
Qed.

(** Retried responses: the jar of the last one, the hook on each one
    that reaches it. *)
Lemma fold_receive (g : Instance) (l : list (CookieJar * Response)) :
  Got.afterResponse g = [afterResponse] ->
  forall st,
    fold_left (receive g) l st
    = set_cookieJar (last (map fst l) (cookieJar st))
                    (fold_left apply_hook (filter hooked (map snd l)) st).
Proof.
  intros Hg. induction l as [|[j r] l IH]; intros st;
    cbn [fold_left map fst snd filter].
  - cbn [last]. symmetry. apply set_cookieJar_same.
  - assert (E : receive g st (j, r)
                = set_cookieJar j (if hooked r then apply_hook st r else st)).
    { unfold receive. cbn [fst snd]. destruct (hooked r); [|reflexivity].
      rewrite Hg. cbn [run_hooks afterResponse fst].
      apply hook_set_cookieJar. }
    rewrite E, IH, last_cons, fold_hook_set_cookieJar, set_cookieJar_twice.
    destruct (hooked r); reflexivity.
Qed.

Section WithConstants.
Variable K : Constants.

Lemma sign_hmac (x : string) :
  sign K x = hex (HMAC.hmac_sha256 (utf8 (SIGNATURE_KEY K)) (utf8 x)).
Proof. apply CryptoFacts.createHmac_update_digest. Qed.

Lemma sign_length (x : string) : String.length (sign K x) = 64%nat.
Proof. rewrite sign_hmac. apply CryptoFacts.hmac_hex_length. Qed.

Lemma sign_chars (x : string) :
  forallb is_lower_hex (list_ascii_of_string (sign K x)) = true.
Proof. rewrite sign_hmac. apply hex_chars. Qed.

(** A signed body passes the receiver's check and yields its text. *)
Lemma verify_signed (text : string) :
  Receiver.verify K (sign K text ++ "." ++ text) = Some text.
Proof.
  unfold Receiver.verify.
  rewrite chars_app. cbn [append list_ascii_of_string].
  rewrite split_at_first
    by (eapply forallb_impl; [apply lower_hex_not_dot | apply sign_chars]).
  rewrite !string_of_list_ascii_of_string, String.eqb_refl. reflexivity.
Qed.

(** The default tables have distinct keys, none of them an array index:
    spreading them into an empty object gives them back. *)
Lemma headers_own_copy (st : State) (now : Z) :
  copy (headers K st now) [] = headers K st now.
Proof. reflexivity. Qed.

Lemma data_own_copy (st : State) : copy (data st) [] = data st.
Proof. reflexivity. Qed.

Lemma send_headers_lookup (st : State) (now : Z)
      (options : RequestOptions) (k : string) :
  NoDup (keys (or_empty (ro_headers options))) ->
  lookup k (send_headers K st now options)
  = match lookup k (or_empty (ro_headers options)) with
    | Some v => Some v
    | None => lookup k (headers K st now)
    end.
Proof.
  intros Hnd. unfold send_headers, spread2.
  rewrite headers_own_copy. now apply lookup_copy.
Qed.

Lemma send_data_lookup (st : State) (options : RequestOptions)
      (k : string) :
  NoDup (keys (or_empty (ro_data options))) ->
  lookup k (send_data st options)
  = match lookup k (or_empty (ro_data options)) with
    | Some v => Some v
    | None => lookup k (data st)
    end.
Proof.
  intros Hnd. unfold send_data, spread2.
  rewrite data_own_copy. now apply lookup_copy.
Qed.

(** One call, spelled out: the state takes the hook for every response
    that reaches it and the jar as the exchange leaves it, and the
    promise settles by the outcome. *)
Lemma send_unfold (net : Transport) (now : Z) (options : RequestOptions)
      (st : State) :
  let x := exchange_of K net now options st in
  send K net now options st
  = (set_cookieJar (final_jar x) (fold_left apply_hook (received x) st),
     match outcome x with
     | Failed _ e => Rejected e
     | Responded _ r =>
         if isResponseOk r then
           match responseBody r with
           | Decoded v => Fulfilled v
           | Undecoded _ => Rejected ParseError
           end
         else Rejected (HTTPError (statusCode r))
     end).
Proof.
  cbv zeta. unfold send, Got.request, received, final_jar.
  rewrite (fold_receive (got K)) by reflexivity.
  change (Got.exchange (got K) net (requestOptions K st now options)
                       (cookieJar st))
    with (exchange_of K net now options st).
  destruct (exchange_of K net now options st) as [rs [jar e|jar r]];
    cbn [retried outcome].
  - rewrite app_nil_r, set_cookieJar_twice. reflexivity.
  - rewrite filter_app, fold_left_app. cbn [filter].
    assert (Hh : hooked r = negb (isResponseOk r && undecoded r))
      by reflexivity.
    unfold got, extend. cbn [Got.afterResponse run_hooks afterResponse].
    unfold undecoded in *.
    destruct (isResponseOk r) eqn:Eok; destruct (responseBody r) eqn:Eb;
      cbn [andb negb] in Hh; rewrite Hh; cbn [andb negb fold_left];
      rewrite ?set_cookieJar_twice, ?hook_set_cookieJar, ?Eok, ?Eb;
      reflexivity.
Qed.

(** What the client makes of the options of [send]: the form is always
    there, so a GET or HEAD request is always refused. *)
Lemma refused_send (now : Z) (options : RequestOptions) (st : State) :
  refused (requestOptions K st now options)
  = if starts_with_slash (ro_url options) then
      Some (Thrown "Error"
              "`input` must not start with a slash when using `prefixUrl`")
    else if refuses_payload (or_string (ro_method options) "GET") then
      Some (refusal (or_string (ro_method options) "GET"))
    else None.
Proof. reflexivity. Qed.

(** A call the client does not refuse is the network's. *)
Lemma exchange_of_sent (net : Transport) (now : Z)
      (options : RequestOptions) (st : State) :
  refused (requestOptions K st now options) = None ->
  exchange_of K net now options st
  = net (API_URL K) (cookieJar st) (requestOptions K st now options).
Proof.
  intros H. unfold exchange_of, exchange. rewrite H. reflexivity.
Qed.

Lemma exchange_of_refused (net : Transport) (now : Z)
      (options : RequestOptions) (st : State) (e : GotError) :
  refused (requestOptions K st now options) = Some e ->
  exchange_of K net now options st
  = {| retried := []; outcome := Failed (cookieJar st) e |}.
Proof.
  intros H. unfold exchange_of, exchange. rewrite H. reflexivity.
Qed.

End WithConstants.

End RequestFacts.

(* ================================================================== *)
(** ** Merged objects: keys, order, well-formedness *)

Module MergeFacts.
Import JS Merge ObjectFacts.

Lemma has_in (k : string) (o : JSObject) :
  has k o = true <-> In k (keys o).
Proof.
  unfold has. pose proof (lookup_none_iff k o) as H.
  destruct (lookup k o).
  - split; [intros _|reflexivity].
    destruct (in_dec string_dec k (keys o)) as [Hin|Hn]; [exact Hin|].
    apply H in Hn. discriminate.
  - split; [discriminate|]. intros Hin. exfalso.
    apply (proj1 H eq_refl Hin).
Qed.

Lemma has_set (k k' : string) (v : JSValue) (o : JSObject) :
  has k' (set o k v) = String.eqb k' k || has k' o.
Proof.
  unfold has at 1. rewrite lookup_set.
  destruct (String.eqb k' k); [reflexivity|]. reflexivity.
Qed.

(** The keys after a spread element: those of the target and those of
    the source. *)
Lemma has_copy (k : string) (src : JSObject) :
  forall dst, has k (copy src dst) = has k src || has k dst.
Proof.
  induction src as [|[k1 v1] src IH]; intros dst; [reflexivity|].
  change (copy ((k1, v1) :: src) dst) with (copy src (set dst k1 v1)).
  rewrite IH, has_set. unfold has at 3. cbn [lookup].
  destruct (String.eqb k k1); cbn [orb].
  - apply orb_true_r.
  - reflexivity.
Qed.

Lemma has_spread2 (k : string) (a b : JSObject) :
  has k (spread2 a b) = has k a || has k b.
Proof.
  unfold spread2. rewrite !has_copy. cbn [has lookup].
  rewrite orb_false_r. apply orb_comm.
Qed.

Lemma keys_replace (k : string) (v : JSValue) (o : JSObject) :
  keys (replace k v o) = keys o.
Proof.
  induction o as [|[k1 v1] o IH]; [reflexivity|]. cbn [replace].
  destruct (String.eqb_spec k k1) as [->|Hne]; cbn [keys map fst].
  - reflexivity.
  - f_equal. exact IH.
Qed.

Lemma in_keys_insert_index (i : Z) (k x : string) (v : JSValue)
      (o : JSObject) :
  In x (keys (insert_index i k v o)) <-> x = k \/ In x (keys o).
Proof.
  induction o as [|[k1 v1] o IH]; cbn [insert_index keys map fst In].
  - intuition.
  - destruct (array_index k1) as [j|]; [destruct (j <? i)|];
      cbn [keys map fst In]; fold (keys o);
      try (fold (keys (insert_index i k v o)); rewrite IH);
      intuition.
Qed.

Lemma nodup_insert_index (i : Z) (k : string) (v : JSValue)
      (o : JSObject) :
  ~ In k (keys o) -> NoDup (keys o) ->
  NoDup (keys (insert_index i k v o)).
Proof.
  induction o as [|[k1 v1] o IH]; cbn [insert_index keys map fst];
    intros Hn Hnd.
  - constructor; [intros []|constructor].
  - fold (keys o) in *.
    assert (Hall : NoDup (k :: k1 :: keys o)) by (constructor; assumption).
    destruct (array_index k1) as [j|]; [destruct (j <? i)|];
      cbn [keys map fst]; fold (keys o); try exact Hall.
    fold (keys (insert_index i k v o)).
    inversion Hnd as [|? ? Hk1 Hnd']; subst.
    constructor.
    + rewrite in_keys_insert_index. intros [->|Hin].
      * apply Hn. now left.
      * contradiction.
    + apply IH; [|exact Hnd']. intros Hin. apply Hn. now right.
Qed.

Lemma nodup_set (k : string) (v : JSValue) (o : JSObject) :
  NoDup (keys o) -> NoDup (keys (set o k v)).
Proof.
  intros Hnd. unfold set. destruct (has k o) eqn:E.
  - now rewrite keys_replace.
  - assert (Hn : ~ In k (keys o)).
    { intros Hin. apply has_in in Hin. congruence. }
    destruct (array_index k).
    + now apply nodup_insert_index.
    + unfold keys. rewrite map_app. cbn [map fst].
      apply NoDup_app; [exact Hnd | constructor; [intros []|constructor] |].
      intros x Hx [<-|[]]. contradiction.
Qed.

Lemma nodup_copy (src : JSObject) :
  forall dst, NoDup (keys dst) -> NoDup (keys (copy src dst)).
Proof.
  induction src as [|[k1 v1] src IH]; intros dst Hnd; [exact Hnd|].
  change (copy ((k1, v1) :: src) dst) with (copy src (set dst k1 v1)).
  apply IH, nodup_set, Hnd.
Qed.

Lemma nodup_spread2 (a b : JSObject) : NoDup (keys (spread2 a b)).
Proof. unfold spread2. apply nodup_copy, nodup_copy. constructor. Qed.

(** *** Where the properties of a merged object sit *)

Lemma overridden_cons_other (k : string) (v : JSValue) (b a : JSObject) :
  ~ In k (keys a) ->
  map (overridden ((k, v) :: b)) a = map (overridden b) a.
Proof.
  intros Hn. apply map_ext_in. intros [k1 v1] Hin.
  unfold overridden. cbn [fst snd lookup].
  destruct (String.eqb_spec k1 k) as [->|Hne]; [|reflexivity].
  exfalso. apply Hn. apply (in_map fst) in Hin. exact Hin.
Qed.

Lemma overridden_absent (k : string) (v : JSValue) (b : JSObject) :
  ~ In k (keys b) -> overridden b (k, v) = (k, v).
Proof.
  intros Hn. unfold overridden. cbn [fst snd].
  apply lookup_none_iff in Hn. now rewrite Hn.
Qed.

Lemma map_overridden_replace (k : string) (v : JSValue) (b a : JSObject) :
  ~ In k (keys b) -> NoDup (keys a) -> has k a = true ->
  map (overridden b) (replace k v a) = map (overridden ((k, v) :: b)) a.
Proof.
  intros Hb. induction a as [|[k1 v1] a IH]; intros Hnd Hhas.
  - discriminate.
  - inversion Hnd as [|? ? Hk1 Hnd']; subst. cbn [replace].
    destruct (String.eqb_spec k k1) as [<-|Hne]; cbn [map].
    + rewrite overridden_absent by exact Hb.
      rewrite overridden_cons_other by exact Hk1.
      unfold overridden at 2. cbn [fst snd lookup].
      rewrite String.eqb_refl. reflexivity.
    + rewrite IH; [|exact Hnd'|].
      * f_equal. unfold overridden. cbn [fst snd lookup].
        destruct (String.eqb_spec k1 k); [congruence | reflexivity].
      * unfold has in *. cbn [lookup] in Hhas.
        destruct (String.eqb_spec k k1); [congruence | exact Hhas].
Qed.

Lemma has_replace (x k : string) (v : JSValue) (a : JSObject) :
  has x (replace k v a) = has x a.
Proof.
  destruct (has x a) eqn:E.
  - apply has_in. rewrite keys_replace. now apply has_in.
  - destruct (has x (replace k v a)) eqn:E'; [|reflexivity].
    apply has_in in E'. rewrite keys_replace in E'.
    apply has_in in E'. congruence.
Qed.

(** The layout of [{ ...a, ...b }] when the keys of [b] are not array
    indices: the properties of [a] in their places, with the values of
    [b] where it has the key, then the new properties of [b] in the order
    of [b]. *)
Lemma copy_layout (b : JSObject) :
  forall a, NoDup (keys a) -> NoDup (keys b) -> plain_keys b ->
    copy b a = map (overridden b) a ++ filter (fresh a) b.
Proof.
  induction b as [|[k v] b IH]; intros a Ha Hb Hp.
  - cbn [copy fold_left filter]. rewrite app_nil_r.
    symmetry. rewrite <- (map_id a) at 2. apply map_ext.
    intros [k1 v1]. reflexivity.
  - inversion Hb as [|? ? Hk Hb']; subst.
    inversion Hp as [|? ? Hik Hp']; subst.
    change (copy ((k, v) :: b) a) with (copy b (set a k v)).
    rewrite IH; [|now apply nodup_set|exact Hb'|exact Hp'].
    unfold set. cbn [filter].
    change (fresh a (k, v)) with (negb (has k a)).
    destruct (has k a) eqn:E; cbn [negb].
    + rewrite map_overridden_replace by assumption. f_equal.
      apply filter_ext. intros [k1 v1]. unfold fresh. cbn [fst].
      now rewrite has_replace.
    + rewrite Hik.
      assert (Hn : ~ In k (keys a)).
      { intros Hin. apply has_in in Hin. congruence. }
      rewrite map_app. cbn [map].
      rewrite overridden_absent by exact Hk.
      rewrite overridden_cons_other by exact Hn.
      rewrite <- app_assoc. cbn [app]. do 2 f_equal.
      apply filter_ext_in. intros [k1 v1] Hin. unfold fresh. cbn [fst].
      f_equal.
      assert (E1 : has k1 (set a k v) = String.eqb k1 k || has k1 a)
        by apply has_set.
      unfold set in E1. rewrite E, Hik in E1. rewrite E1.
      destruct (String.eqb_spec k1 k) as [->|Hne]; [|reflexivity].
      exfalso. apply Hk. apply (in_map fst) in Hin. exact Hin.
Qed.

End MergeFacts.

(* ================================================================== *)
(** ** The enumeration order of an object *)

Module EnumerationFacts.
Import JS Merge ObjectFacts MergeFacts.

(** An array index has one spelling. *)
Lemma array_index_spelling (k : string) (i : Z) :
  array_index k = Some i -> k = string_of_list_ascii (Text.digits i).
Proof.
  unfold array_index.
  destruct (forallb Text.is_digit (list_ascii_of_string k)); [|discriminate].
  destruct (String.eqb_spec
              (string_of_list_ascii
                 (Text.digits (Text.digits_value (list_ascii_of_string k))))
              k) as [E|]; [|discriminate].
  cbn [andb]. destruct (_ <=? _); [|discriminate].
  intros [= <-]. symmetry. exact E.
Qed.

Lemma array_index_inj (k k' : string) (i : Z) :
  array_index k = Some i -> array_index k' = Some i -> k = k'.
Proof.
  intros H H'. apply array_index_spelling in H, H'. congruence.
Qed.

Lemma in_keys (kv : string * JSValue) (o : JSObject) :
  In kv o -> In (fst kv) (keys o).
Proof. apply in_map. Qed.

(** A new array-index key goes to its place among the index keys. *)
Lemma insert_index_sorted (i : Z) (k : string) (v : JSValue)
      (P : JSObject) :
  array_index k = Some i ->
  Forall (fun kv => is_index kv = false) P ->
  forall I,
    Forall (fun kv => is_index kv = true) I ->
    StronglySorted index_before I ->
    ~ In k (keys I) ->
    exists I1,
      insert_index i k v (I ++ P) = I1 ++ P
      /\ Permutation I1 ((k, v) :: I)
      /\ Forall (fun kv => is_index kv = true) I1
      /\ StronglySorted index_before I1.
Proof.
  intros Hk HP.
  assert (Hkv : is_index (k, v) = true).
  { unfold is_index. cbn [fst]. now rewrite Hk. }
  induction I as [|[k1 v1] I IH]; intros HI HS Hn.
  - exists [(k, v)]. cbn [app]. repeat split.
    + destruct P as [|[k1 v1] P]; [reflexivity|]. cbn [insert_index].
      inversion HP as [|? ? H1 _]; subst. unfold is_index in H1.
      cbn [fst] in H1. destruct (array_index k1); [discriminate|].
      reflexivity.
    + apply Permutation_refl.
    + constructor; [exact Hkv | constructor].
    + constructor; constructor.
  - inversion HI as [|? ? H1 HI']; subst.
    inversion HS as [|? ? HS' Hall]; subst.
    unfold is_index in H1. cbn [fst] in H1.
    destruct (array_index k1) as [j|] eqn:Ej; [|discriminate].
    cbn [app insert_index]. rewrite Ej.
    destruct (j <? i) eqn:Eji.
    + apply Z.ltb_lt in Eji.
      destruct (IH HI' HS') as (I1 & E & Hp & Hi & Hs).
      { intros Hin. apply Hn. now right. }
      exists ((k1, v1) :: I1). rewrite E. repeat split.
      * eapply perm_trans; [apply perm_skip, Hp | apply perm_swap].
      * constructor; [|exact Hi]. unfold is_index. cbn [fst].
        now rewrite Ej.
      * constructor; [exact Hs|].
        apply (Permutation_Forall (Permutation_sym Hp)).
        constructor; [|exact Hall].
        exists j, i. cbn [fst]. auto.
    + apply Z.ltb_ge in Eji.
      assert (Hlt : i < j).
      { destruct (Z.eq_dec i j) as [<-|]; [|lia].
        exfalso. apply Hn. left. apply (array_index_inj _ _ _ Ej Hk). }
      exists ((k, v) :: (k1, v1) :: I). repeat split.
      * apply Permutation_refl.
      * constructor; [exact Hkv|]. constructor; [|exact HI'].
        unfold is_index. cbn [fst]. now rewrite Ej.
      * constructor; [exact HS|].
        constructor.
        -- exists i, j. cbn [fst]. auto.
        -- eapply Forall_impl; [|exact Hall].
           intros kv (a & b & Ha & Hb & Hab). cbn [fst] in Ha.
           rewrite Ej in Ha. injection Ha as <-.
           exists i, b. cbn [fst]. repeat split; [exact Hk|exact Hb|lia].
Qed.

Lemma in_keys_set (x k : string) (v : JSValue) (o : JSObject) :
  In x (keys (set o k v)) <-> x = k \/ In x (keys o).
Proof.
  rewrite <- !has_in, has_set.
  destruct (String.eqb_spec x k) as [->|Hne]; cbn [orb].
  - intuition.
  - split; [now right|]. intros [E|H]; [congruence | exact H].
Qed.

(** Building an object from properties with new, distinct keys: the
    array-index keys stay sorted in front, the others are appended. *)
Lemma copy_enumeration_from (ins : JSObject) :
  forall I P,
    Forall (fun kv => is_index kv = true) I ->
    StronglySorted index_before I ->
    Forall (fun kv => is_index kv = false) P ->
    NoDup (keys ins) ->
    (forall k, In k (keys ins) -> ~ In k (keys (I ++ P))) ->
    exists I1,
      copy ins (I ++ P)
      = I1 ++ (P ++ filter (fun kv => negb (is_index kv)) ins)
      /\ Permutation I1 (I ++ filter is_index ins)
      /\ Forall (fun kv => is_index kv = true) I1
      /\ StronglySorted index_before I1.
Proof.
  induction ins as [|[k v] ins IH]; intros I P HI HS HP Hnd Hfresh.
  - exists I. cbn [copy fold_left filter]. rewrite !app_nil_r.
    repeat split; auto.
  - inversion Hnd as [|? ? Hk Hnd']; subst.
    change (copy ((k, v) :: ins) (I ++ P))
      with (copy ins (set (I ++ P) k v)).
    assert (Hnew : ~ In k (keys (I ++ P))) by (apply Hfresh; now left).
    assert (Hhas : has k (I ++ P) = false).
    { destruct (has k (I ++ P)) eqn:E; [|reflexivity].
      apply has_in in E. contradiction. }
    assert (Hfresh' : forall o', (forall x, In x (keys o') <->
                                            x = k \/ In x (keys (I ++ P))) ->
                                 forall x, In x (keys ins) ->
                                           ~ In x (keys o')).
    { intros o' Ho x Hx Hin. apply Ho in Hin as [->|Hin].
      - contradiction.
      - apply (Hfresh x); [now right | exact Hin]. }
    pose proof (in_keys_set) as Hset.
    cbn [filter]. unfold set in *. rewrite Hhas in *.
    destruct (array_index k) as [i|] eqn:Ek.
    + assert (Eidx : is_index (k, v) = true).
      { unfold is_index. cbn [fst]. now rewrite Ek. }
      rewrite Eidx. cbn [negb].
      destruct (insert_index_sorted i k v P Ek HP I HI HS)
        as (I0 & E0 & Hp0 & Hi0 & Hs0).
      { intros Hin. apply Hnew. unfold keys. rewrite map_app.
        apply in_or_app. now left. }
      rewrite E0.
      destruct (IH I0 P Hi0 Hs0 HP Hnd') as (I1 & E1 & Hp1 & Hi1 & Hs1).
      { rewrite <- E0. apply Hfresh'. intros x.
        specialize (Hset x k v (I ++ P)). rewrite Hhas, Ek in Hset.
        exact Hset. }
      exists I1. repeat split; auto.
      eapply perm_trans; [exact Hp1|].
      eapply perm_trans; [apply Permutation_app_tail, Hp0|].
      cbn [app]. apply Permutation_middle.
    + assert (Eidx : is_index (k, v) = false).
      { unfold is_index. cbn [fst]. now rewrite Ek. }
      rewrite Eidx. cbn [negb].
      rewrite <- app_assoc.
      destruct (IH I (P ++ [(k, v)]) HI HS) as (I1 & E1 & Hp1 & Hi1 & Hs1).
      { apply Forall_app. split; [exact HP|]. constructor; [exact Eidx|].
        constructor. }
      { exact Hnd'. }
      { rewrite app_assoc. apply Hfresh'. intros x.
        specialize (Hset x k v (I ++ P)). rewrite Hhas, Ek in Hset.
        exact Hset. }
      exists I1. rewrite E1, <- app_assoc. cbn [app]. repeat split; auto.
Qed.

(** The object that results from creating the properties [ins], with
    distinct keys, in that order. *)
Lemma copy_enumeration (ins : JSObject) :
  NoDup (keys ins) ->
  exists I,
    copy ins [] = I ++ filter (fun kv => negb (is_index kv)) ins
    /\ Permutation I (filter is_index ins)
    /\ Forall (fun kv => is_index kv = true) I
    /\ StronglySorted index_before I.
Proof.
  intros Hnd.
  destruct (copy_enumeration_from ins [] []) as (I & E & Hp & Hi & Hs);
    try constructor; auto.
  exists I. repeat split; auto.
Qed.

(** Without array-index keys the order of creation is kept. *)
Lemma copy_plain (ins : JSObject) :
  NoDup (keys ins) -> plain_keys ins -> copy ins [] = ins.
Proof.
  intros Hnd Hp. rewrite copy_layout; auto; [|constructor].
  cbn [map app]. rewrite forallb_filter_id; [reflexivity|].
  apply forallb_forall. intros x _. reflexivity.
Qed.

End EnumerationFacts.

(* ================================================================== *)
(** ** Reading back what [JSON.stringify] writes *)

Module JSONFacts.
Import JS JSON TextFacts.

(** Induction over values, with the elements of an array and the
    property values of an object as smaller values. *)
Lemma JSValue_nested_ind (P : JSValue -> Prop)
      (Hu : P JUndefined) (Hn : P JNull)
      (Hb : forall b, P (JBool b)) (Hz : forall n, P (JNum n))
      (Hs : forall s, P (JStr s))
      (Ha : forall l, Forall P l -> P (JArr l))
      (Ho : forall ps, Forall (fun kv => P (snd kv)) ps -> P (JObj ps)) :
  forall v, P v.
Proof.
  fix IH 1. intros [| | b | n | s | l | ps].
  - exact Hu.
  - exact Hn.
  - apply Hb.
  - apply Hz.
  - apply Hs.
  - apply Ha. induction l as [|x l IHl]; constructor;
      [apply IH | exact IHl].
  - apply Ho. induction ps as [|[k x] ps IHps]; constructor;
      [apply IH | exact IHps].
Qed.

(** *** Strings *)

(** Every character reads back from its escaped form. *)
Lemma decode_chars_escape (c : ascii) (tail : list ascii) :
  decode_chars (list_ascii_of_string (escape c) ++ tail) = prepend [c] (decode_chars tail).
Proof.
  destruct c as [[] [] [] [] [] [] [] []]; reflexivity.
Qed.

Lemma concat_cons (x : string) (xs : list string) :
  concat EmptyString (x :: xs) = (x ++ concat EmptyString xs)%string.
Proof.
  destruct xs as [|y ys]; cbn [concat append].
  - induction x as [|c x IH]; cbn [append]; [reflexivity | now rewrite <- IH].
  - reflexivity.
Qed.

Lemma decode_chars_escaped (s rest : list ascii) :
  decode_chars (list_ascii_of_string (concat EmptyString (map escape s))
                  ++ Text.dquote :: rest)
  = Some (s, rest).
Proof.
  induction s as [|c s IH].
  - reflexivity.
  - cbn [map]. rewrite concat_cons, chars_app, <- app_assoc.
    rewrite decode_chars_escape, IH. reflexivity.
Qed.

Lemma chars_quote (s : string) (rest : list ascii) :
  list_ascii_of_string (quote s) ++ rest
  = Text.dquote
      :: list_ascii_of_string (concat EmptyString (map escape (list_ascii_of_string s)))
      ++ Text.dquote :: rest.
Proof.
  unfold quote. rewrite !chars_app, <- !app_assoc. reflexivity.
Qed.

Lemma decode_value_string (fuel : nat) (s : string) (rest : list ascii) :
  decode_value (S fuel) (list_ascii_of_string (quote s) ++ rest) = Some (JStr s, rest).
Proof.
  rewrite chars_quote.
  change (decode_value (S fuel) (Text.dquote :: ?x))
    with (match decode_chars x with
          | Some (s, rest') => Some (JStr (string_of_list_ascii s), rest')
          | None => None
          end).
  rewrite decode_chars_escaped, string_of_list_ascii_of_string.
  reflexivity.
Qed.

(** A character of 0x20 or above other than the quote and the backslash
    is written as it is. *)
Lemma escape_verbatim (c : ascii) :
  32 <= Text.code c -> Text.code c <> 34 -> Text.code c <> 92 ->
  escape c = String c EmptyString.
Proof.
  intros H32 H34 H92. unfold escape.
  repeat match goal with
         | |- context [?a =? ?b] => destruct (Z.eqb_spec a b); [lia|]
         end.
  destruct (Z.ltb_spec (Text.code c) 32); [lia | reflexivity].
Qed.

(** *** Numbers *)

Lemma delimited_not_digit (c : ascii) (rest : list ascii) :
  delimited (c :: rest) = true -> Text.is_digit c = false.
Proof.
  unfold delimited, Text.is_digit. intros H.
  destruct (Z.eqb_spec (Text.code c) 44) as [->|]; [reflexivity|].
  destruct (Z.eqb_spec (Text.code c) 93) as [->|]; [reflexivity|].
  destruct (Z.eqb_spec (Text.code c) 125) as [->|]; [reflexivity|].
  discriminate.
Qed.

Lemma delimited_ends_number (rest : list ascii) :
  delimited rest = true -> ends_number rest = true.
Proof.
  destruct rest as [|c rest]; [reflexivity|].
  unfold delimited, ends_number. intros H.
  destruct (Z.eqb_spec (Text.code c) 44) as [->|]; [reflexivity|].
  destruct (Z.eqb_spec (Text.code c) 93) as [->|]; [reflexivity|].
  destruct (Z.eqb_spec (Text.code c) 125) as [->|]; [reflexivity|].
  discriminate.
Qed.

Lemma span_digits_app (ds rest : list ascii) :
  forallb Text.is_digit ds = true -> delimited rest = true ->
  span_digits (ds ++ rest) = (ds, rest).
Proof.
  intros Hds Hrest. induction ds as [|d ds IH].
  - destruct rest as [|c rest]; [reflexivity|].
    cbn [app span_digits].
    now rewrite (delimited_not_digit _ _ Hrest).
  - cbn [forallb] in Hds. apply andb_true_iff in Hds as [Hd Hds].
    cbn [app span_digits]. rewrite Hd, (IH Hds). reflexivity.
Qed.

Lemma decode_natural_digits (a : Z) (rest : list ascii) :
  0 <= a -> delimited rest = true ->
  decode_natural (Text.digits a ++ rest) = Some (a, rest).
Proof.
  intros Ha Hrest. destruct (digits_spec a Ha) as (Hne & Hd & Hv).
  unfold decode_natural. rewrite (span_digits_app _ _ Hd Hrest), Hv.
  rewrite String.eqb_refl, (delimited_ends_number _ Hrest).
  destruct (Text.digits a); [contradiction | reflexivity].
Qed.

Lemma decode_value_digit (fuel : nat) (d : ascii) (cs : list ascii) :
  Text.is_digit d = true ->
  decode_value (S fuel) (d :: cs)
  = match decode_natural (d :: cs) with
    | Some (a, rest') => Some (JNum a, rest')
    | None => None
    end.
Proof.
  destruct d as [[] [] [] [] [] [] [] []]; intros H;
    try discriminate H; reflexivity.
Qed.

Lemma decode_value_number (fuel : nat) (n : Z) (rest : list ascii) :
  Z.abs n < 2 ^ 53 -> delimited rest = true ->
  decode_value (S fuel) (list_ascii_of_string (number_to_string n) ++ rest)
  = Some (JNum n, rest).
Proof.
  intros Hn Hrest. unfold number_to_string, Number.integer_to_string.
  destruct (Z.ltb_spec (Z.abs n) (2 ^ 53)) as [_|]; [|lia].
  rewrite chars_app, list_string_inv.
  destruct (Z.ltb_spec n 0) as [Hneg|Hpos].
  - cbn [list_ascii_of_string app].
    change (decode_value (S fuel) ("-"%char :: ?x))
      with (match decode_natural x with
            | Some (a, rest') => Some (JNum (- a), rest')
            | None => None
            end).
    rewrite decode_natural_digits; [|lia|exact Hrest].
    do 2 f_equal. f_equal. lia.
  - cbn [list_ascii_of_string app].
    destruct (digits_spec (Z.abs n) (Z.abs_nonneg n))
      as (Hne & Hd & _).
    pose proof (decode_natural_digits (Z.abs n) rest (Z.abs_nonneg n) Hrest)
      as Hnat.
    destruct (Text.digits (Z.abs n)) as [|d ds]; [contradiction|].
    cbn [forallb] in Hd. apply andb_true_iff in Hd as [Hd _].
    cbn [app] in *. rewrite (decode_value_digit _ _ _ Hd), Hnat.
    do 2 f_equal. f_equal. lia.
Qed.

(** *** Values *)

Lemma length_append (s t : string) :
  String.length (s ++ t) = (String.length s + String.length t)%nat.
Proof.
  induction s as [|c s IH]; cbn [append String.length];
    [reflexivity | now rewrite IH].
Qed.

Lemma digit_not_bracket (d : ascii) :
  Text.is_digit d = true -> d <> "]"%char.
Proof. intros H ->. discriminate H. Qed.

(** The text of a value starts with a character other than a closing
    bracket. *)
Lemma serialize_head (v : JSValue) :
  safe v = true ->
  exists c s, serialize v = String c s /\ c <> "]"%char.
Proof.
  destruct v as [| | b | n | s | l | ps]; intros Hs.
  - exists "n"%char, "ull". split; [reflexivity | discriminate].
  - exists "n"%char, "ull". split; [reflexivity | discriminate].
  - destruct b.
    + exists "t"%char, "rue". split; [reflexivity | discriminate].
    + exists "f"%char, "alse". split; [reflexivity | discriminate].
  - cbn [safe] in Hs. apply Z.ltb_lt in Hs.
    cbn [serialize]. unfold number_to_string, Number.integer_to_string.
    destruct (Z.ltb_spec (Z.abs n) (2 ^ 53)) as [_|]; [|lia].
    destruct (n <? 0).
    + eexists _, _. split; [reflexivity | discriminate].
    + destruct (digits_spec (Z.abs n) (Z.abs_nonneg n)) as (Hne & Hd & _).
      destruct (Text.digits (Z.abs n)) as [|d ds]; [contradiction|].
      cbn [forallb] in Hd. apply andb_true_iff in Hd as [Hd _].
      eexists _, _. split; [reflexivity | now apply digit_not_bracket].
  - eexists _, _. split; [reflexivity | discriminate].
  - eexists _, _. split; [reflexivity | discriminate].
  - eexists _, _. split; [reflexivity | discriminate].
Qed.

Lemma decode_value_bracket (fuel : nat) (c : ascii) (cs : list ascii) :
  c <> "]"%char ->
  decode_value (S fuel) ("["%char :: c :: cs)
  = match decode_elements fuel (c :: cs) with
    | Some (vs, rest') => Some (JArr vs, rest')
    | None => None
    end.
Proof.
  destruct c as [[] [] [] [] [] [] [] []]; intros H;
    try reflexivity; contradiction H; reflexivity.
Qed.

Lemma decode_elements_step (fuel : nat) (cs : list ascii) :
  decode_elements (S fuel) cs
  = match decode_value fuel cs with
    | Some (v, ","%char :: rest) =>
        match decode_elements fuel rest with
        | Some (vs, rest') => Some (v :: vs, rest')
        | None => None
        end
    | Some (v, "]"%char :: rest) => Some ([v], rest)
    | _ => None
    end.
Proof. reflexivity. Qed.

Lemma decode_members_step (fuel : nat) (cs : list ascii) :
  decode_members (S fuel) (Text.dquote :: cs)
  = match decode_chars cs with
    | Some (k, ":"%char :: rest') =>
        match decode_value fuel rest' with
        | Some (v, ","%char :: rest'') =>
            match decode_members fuel rest'' with
            | Some (ps, r) => Some ((string_of_list_ascii k, v) :: ps, r)
            | None => None
            end
        | Some (v, "}"%char :: rest'') =>
            Some ([(string_of_list_ascii k, v)], rest'')
        | _ => None
        end
    | _ => None
    end.
Proof. reflexivity. Qed.

(** The elements of a non-empty array, up to its closing bracket. *)
Lemma decode_elements_join (elems : list JSValue) :
  Forall (fun v =>
            forall fuel rest,
              delimited rest = true ->
              (String.length (serialize v) <= fuel)%nat ->
              decode_value fuel (list_ascii_of_string (serialize v) ++ rest)
              = Some (denoted v, rest)) elems ->
  elems <> [] ->
  forall fuel rest,
    (String.length (Text.join "," (map serialize elems)) < fuel)%nat ->
    decode_elements fuel
      (list_ascii_of_string (Text.join "," (map serialize elems))
         ++ "]"%char :: rest)
    = Some (map denoted elems, rest).
Proof.
  induction elems as [|e es IH]; intros Hall Hne fuel rest Hfuel;
    [contradiction|].
  inversion Hall as [|? ? He Hes]; subst.
  destruct fuel as [|f]; [lia|]. rewrite decode_elements_step.
  destruct es as [|e2 es].
  - cbn [map Text.join] in *.
    rewrite He; [reflexivity | reflexivity | lia].
  - change (Text.join "," (map serialize (e :: e2 :: es)))
      with (serialize e ++ "," ++ Text.join "," (map serialize (e2 :: es)))%string
      in *.
    rewrite !length_append in Hfuel. cbn [String.length] in Hfuel.
    rewrite !chars_app, <- !app_assoc.
    cbn [list_ascii_of_string app].
    rewrite He; [|reflexivity|lia].
    rewrite IH; [reflexivity | exact Hes | discriminate | lia].
Qed.

(** The members of a non-empty object, up to its closing brace. *)
Lemma decode_members_join (ps : list (string * JSValue)) :
  Forall (fun kv =>
            forall fuel rest,
              delimited rest = true ->
              (String.length (serialize (snd kv)) <= fuel)%nat ->
              decode_value fuel
                (list_ascii_of_string (serialize (snd kv)) ++ rest)
              = Some (denoted (snd kv), rest)) ps ->
  ps <> [] ->
  forall fuel rest,
    (String.length
       (Text.join ","
          (map (fun kv => quote (fst kv) ++ ":" ++ serialize (snd kv))%string
               ps)) < fuel)%nat ->
    decode_members fuel
      (list_ascii_of_string
         (Text.join ","
            (map (fun kv => quote (fst kv) ++ ":" ++ serialize (snd kv))%string
                 ps))
         ++ "}"%char :: rest)
    = Some (map (fun kv => (fst kv, denoted (snd kv))) ps, rest).
Proof.
  induction ps as [|[k v] ps IH]; intros Hall Hne fuel rest Hfuel;
    [contradiction|].
  inversion Hall as [|? ? Hv Hps]; subst. cbn [fst snd] in Hv.
  destruct fuel as [|f]; [lia|].
  destruct ps as [|p2 ps].
  - cbn [map Text.join fst snd] in *.
    rewrite !length_append in Hfuel. cbn [String.length] in Hfuel.
    rewrite chars_app, <- app_assoc, chars_quote, decode_members_step.
    rewrite decode_chars_escaped.
    cbn [append list_ascii_of_string app].
    rewrite Hv; [|reflexivity|lia].
    rewrite string_of_list_ascii_of_string. reflexivity.
  - change (Text.join "," (map ?f ((k, v) :: p2 :: ps)))
      with (f (k, v) ++ "," ++ Text.join "," (map f (p2 :: ps)))%string
      in *.
    cbn beta in *. cbn [fst snd] in *.
    rewrite !length_append in Hfuel. cbn [String.length] in Hfuel.
    rewrite !chars_app, <- !app_assoc, chars_quote, decode_members_step.
    rewrite decode_chars_escaped.
    cbn [append list_ascii_of_string app].
    rewrite Hv; [|reflexivity|lia].
    rewrite IH; [|exact Hps|discriminate|lia].
    rewrite string_of_list_ascii_of_string. reflexivity.
Qed.

Lemma flat_map_defined {A} (f : string * JSValue -> A)
      (ps : list (string * JSValue)) :
  flat_map (fun kv => if is_undefined (snd kv) then [] else [f kv]) ps
  = map f (filter (fun kv => negb (is_undefined (snd kv))) ps).
Proof.
  induction ps as [|[k v] ps IH]; [reflexivity|].
  cbn [flat_map filter snd]. rewrite IH.
  destruct (is_undefined v); reflexivity.
Qed.

(** A value without unsafe numbers reads back from its text as the value
    the text denotes, whatever follows it in a compact text. *)
Lemma decode_serialize (v : JSValue) :
  safe v = true ->
  forall fuel rest,
    delimited rest = true ->
    (String.length (serialize v) <= fuel)%nat ->
    decode_value fuel (list_ascii_of_string (serialize v) ++ rest)
    = Some (denoted v, rest).
Proof.
  induction v as [| | b | n | s | l IH | ps IH] using JSValue_nested_ind;
    intros Hs fuel rest Hrest Hfuel.
  - cbn [serialize String.length] in *.
    destruct fuel as [|f]; [lia | reflexivity].
  - cbn [serialize String.length] in *.
    destruct fuel as [|f]; [lia | reflexivity].
  - destruct b; cbn [serialize String.length] in *;
      (destruct fuel as [|f]; [lia | reflexivity]).
  - cbn [safe] in Hs. apply Z.ltb_lt in Hs.
    destruct (serialize_head (JNum n)) as (c & s & E & _).
    { cbn [safe]. now apply Z.ltb_lt. }
    rewrite E in Hfuel. cbn [String.length] in Hfuel.
    destruct fuel as [|f]; [lia|].
    cbn [serialize denoted]. now apply decode_value_number.
  - cbn [serialize denoted String.length] in *.
    destruct fuel as [|f].
    + unfold quote, Text.dq in Hfuel. cbn [append String.length] in Hfuel. lia.
    + apply decode_value_string.
  - cbn [safe] in Hs. cbn [serialize denoted] in Hfuel |- *.
    destruct l as [|e es].
    + cbn [map Text.join append String.length] in *.
      destruct fuel as [|f]; [lia | reflexivity].
    + assert (Hall : Forall
                (fun v =>
                   forall fuel rest,
                     delimited rest = true ->
                     (String.length (serialize v) <= fuel)%nat ->
                     decode_value fuel
                       (list_ascii_of_string (serialize v) ++ rest)
                     = Some (denoted v, rest)) (e :: es)).
      { rewrite forallb_forall in Hs. rewrite Forall_forall in IH |- *.
        intros x Hx. apply IH; auto. }
      assert (Hhead : exists c s,
                 Text.join "," (map serialize (e :: es)) = String c s
                 /\ c <> "]"%char).
      { destruct (serialize_head e) as (c & s & E & Hc).
        { cbn [forallb] in Hs. now apply andb_true_iff in Hs as [? _]. }
        destruct es as [|e2 es].
        - exists c, s. cbn [map Text.join]. auto.
        - exists c, (s ++ "," ++ Text.join "," (map serialize (e2 :: es)))%string.
          change (Text.join "," (map serialize (e :: e2 :: es)))
            with (serialize e ++ ","
                  ++ Text.join "," (map serialize (e2 :: es)))%string.
          rewrite E. auto. }
      pose proof (decode_elements_join (e :: es) Hall) as Hdec.
      remember (Text.join "," (map serialize (e :: es))) as J eqn:EJ.
      cbn [append] in *. cbn [String.length] in Hfuel.
      rewrite length_append in Hfuel. cbn [String.length] in Hfuel.
      destruct fuel as [|f]; [lia|].
      cbn [list_ascii_of_string app]. rewrite chars_app, <- app_assoc.
      cbn [list_ascii_of_string app].
      specialize (Hdec ltac:(discriminate) f rest ltac:(lia)).
      destruct Hhead as (c & s & EJ' & Hc). rewrite EJ' in *.
      cbn [list_ascii_of_string app] in *.
      rewrite (decode_value_bracket _ _ _ Hc), Hdec. reflexivity.
  - cbn [safe] in Hs. cbn [serialize denoted] in Hfuel |- *.
    rewrite !flat_map_defined in *.
    assert (Hall : Forall
              (fun kv =>
                 forall fuel rest,
                   delimited rest = true ->
                   (String.length (serialize (snd kv)) <= fuel)%nat ->
                   decode_value fuel
                     (list_ascii_of_string (serialize (snd kv)) ++ rest)
                   = Some (denoted (snd kv), rest))
              (filter (fun kv => negb (is_undefined (snd kv))) ps)).
    { rewrite forallb_forall in Hs. rewrite Forall_forall in IH |- *.
      intros x Hx. apply filter_In in Hx as [Hx _]. apply IH; auto. }
    pose proof (decode_members_join _ Hall) as Hdec.
    destruct (filter (fun kv => negb (is_undefined (snd kv))) ps)
      as [|[k v] qs].
    + cbn [map Text.join append String.length] in *.
      destruct fuel as [|f]; [lia | reflexivity].
    + remember (Text.join ","
                  (map (fun kv => quote (fst kv) ++ ":" ++ serialize (snd kv))%string
                       ((k, v) :: qs))) as J eqn:EJ.
      cbn [append] in *. cbn [String.length] in Hfuel.
      rewrite length_append in Hfuel. cbn [String.length] in Hfuel.
      destruct fuel as [|f]; [lia|].
      cbn [list_ascii_of_string app]. rewrite chars_app, <- app_assoc.
      cbn [list_ascii_of_string app].
      specialize (Hdec ltac:(discriminate) f rest ltac:(lia)).
      assert (EJ' : exists s, J = String Text.dquote s).
      { destruct qs as [|q2 qs]; rewrite EJ.
        - cbn [map Text.join fst snd]. unfold quote. cbn [append].
          eexists. reflexivity.
        - change (Text.join "," (map ?f ((k, v) :: q2 :: qs)))
            with (f (k, v) ++ "," ++ Text.join "," (map f (q2 :: qs)))%string.
          cbn beta. unfold quote. cbn [append fst]. eexists. reflexivity. }
      destruct EJ' as (s & EJ'). rewrite EJ' in *.
      cbn [list_ascii_of_string app] in *.
      change (decode_value (S f) ("{"%char :: Text.dquote :: ?x))
        with (match decode_members f (Text.dquote :: x) with
              | Some (ps, rest') => Some (JObj ps, rest')
              | None => None
              end).
      rewrite Hdec. reflexivity.
Qed.

(** [JSON.parse(JSON.stringify(o))] for an object without unsafe
    numbers: the defined properties, in the order of the text. *)
Lemma decode_stringify_object (o : JSObject) :
  safe (JObj o) = true ->
  decode (stringify_object o) = Some (denoted (JObj o)).
Proof.
  intros Hs. unfold decode, stringify_object.
  rewrite <- (app_nil_r (list_ascii_of_string (serialize (JObj o)))) at 2.
  rewrite decode_serialize; auto.
  rewrite <- string_length_chars. lia.
Qed.

End JSONFacts.

(* ================================================================== *)
(** ** Known answers *)

Module KnownAnswers.
Import Text JS Session Got Request Sample RequestFacts.

(** FIPS 180-4 example: the digest of ["abc"]. *)
Example sha256_abc :
  hex (SHA256.digest (utf8 "abc"))
  = "ba7816bf8f01cfea414140de5dae2223b00361a396177a9cb410ff61f20015ad".
Proof. vm_compute. reflexivity. Qed.

(** The derived constants begin and end as FIPS 180-4 lists them. *)
Example sha256_constants :
  nth 0 SHA256.K 0 = 0x428a2f98 /\ nth 63 SHA256.K 0 = 0xc67178f2
  /\ List.length SHA256.K = 64%nat
  /\ SHA256.ra SHA256.init = 0x6a09e667
  /\ SHA256.rh SHA256.init = 0x5be0cd19.
Proof. repeat split. Qed.

(** A message that needs two blocks. *)
Example sha256_two_blocks :
  hex (SHA256.digest
         (utf8 "abcdbcdecdefdefgefghfghighijhijkijkljklmklmnlmnomnopnopq"))
  = "248d6a61d20638b8e5c026930c3e6039a33ce45964ff2167f6ecedd419db06c1".
Proof. vm_compute. reflexivity. Qed.

(** RFC 4231, test case 2. *)
Example hmac_rfc4231_2 :
  Crypto.digest
    (Crypto.update (Crypto.createHmac Crypto.sha256 "Jefe")
                   "what do ya want for nothing?")
    Crypto.hex
  = "5bdcc146bf60754e6a042426089575c75a003f089d2739839dec58b964ec3843".
Proof. vm_compute. reflexivity. Qed.

(** RFC 4231, test case 6: a key longer than a block is hashed first. *)
Example hmac_rfc4231_6 :
  hex (HMAC.hmac_sha256
         (repeat 0xaa 131)
         (utf8 "Test Using Larger Than Block-Size Key - Hash Key First"))
  = "60e431591ee0b67f0d8a26aacbf5b77f8e0bc6213728c5140546040f0ee37f54".
Proof. vm_compute. reflexivity. Qed.

(** The quotient of the model is the IEEE 754 one: on the first
    thousand clock readings, on the last thousand, on a present-day
    reading, and on quotients that are not by 1000. *)
Example fdiv_ieee_clock :
  forallb (fun i => Number.fdiv_is_ieee (Z.of_nat i) 1000) (seq 1 1000)
  = true
  /\ forallb (fun i => Number.fdiv_is_ieee
                         (Number.max_time - Z.of_nat i) 1000)
             (seq 0 1000)
     = true
  /\ Number.fdiv_is_ieee 1700000000123 1000 = true.
Proof. vm_compute. auto. Qed.

Example fdiv_ieee_other :
  Number.fdiv_is_ieee 1 3 = true
  /\ Number.fdiv_is_ieee 9007199254740991 7 = true
  /\ Number.fdiv_is_ieee 5 9007199254740991 = true.
Proof. vm_compute. auto. Qed.

Example toFixed_examples :
  Number.toFixed (Number.fdiv 1700000000123 1000) 3 = "1700000000.123"
  /\ Number.toFixed (Number.fdiv 5 1000) 3 = "0.005"
  /\ Number.toFixed (Number.fdiv 0 1000) 3 = "0.000".
Proof. vm_compute. auto. Qed.

(** Quoting: the two-character escapes and the [\u00xx] form. *)
Example quote_escapes :
  JSON.quote (String "a" (String dquote (String "009"%char
                (String "001"%char (String "092"%char EmptyString)))))
  = (dq ++ "a" ++ JSON.backslash ++ dq ++ JSON.backslash ++ "t"
        ++ JSON.backslash ++ "u0001" ++ JSON.backslash ++ JSON.backslash
        ++ dq)%string.
Proof. vm_compute. reflexivity. Qed.

(** Nested values, and [undefined] in its two positions. *)
Example stringify_nested :
  JSON.stringify_object
    [("n", JS.JNum (-12)); ("u", JS.JUndefined);
     ("l", JS.JArr [JS.JUndefined; JS.JNull; JS.JBool true]);
     ("o", JS.JObj [])]
  = ("{" ++ dq ++ "n" ++ dq ++ ":-12," ++ dq ++ "l" ++ dq
         ++ ":[null,null,true]," ++ dq ++ "o" ++ dq ++ ":{}}")%string.
Proof. vm_compute. reflexivity. Qed.

(** Enumeration order of a spread: array-index keys first, ascending;
    an overridden key keeps its place. *)
Example spread2_order :
  JS.spread2 [("b", JS.JNum 1); ("a", JS.JNum 2)]
             [("10", JS.JNum 3); ("a", JS.JNum 4); ("2", JS.JNum 5)]
  = [("2", JS.JNum 5); ("10", JS.JNum 3);
     ("b", JS.JNum 1); ("a", JS.JNum 4)].
Proof. vm_compute. reflexivity. Qed.

(** [Number::toString] of integers: in full below [2^53]; beyond, the
    shortest decimal that denotes the double, with zeros up to 21
    digits and in exponent form from [1e21]. *)
Example number_to_string_examples :
  map JSON.number_to_string
      [0; -12; 9007199254740991; 9007199254740992; 9007199254740993;
       9007199254740995; 2 ^ 63; - 2 ^ 63; 2 ^ 64;
       8224012570766317311; 10 ^ 21 - 1; 10 ^ 21; 2 ^ 70;
       43949176173510134541662; 123456789012345678901234567890;
       48752261772330003511382240965541; 2 ^ 1023; 2 ^ 1024]
  = ["0"; "-12"; "9007199254740991"; "9007199254740992";
     "9007199254740992"; "9007199254740996"; "9223372036854776000";
     "-9223372036854776000"; "18446744073709552000";
     "8224012570766318000"; "1e+21"; "1e+21"; "1.1805916207174113e+21";
     "4.3949176173510135e+22"; "1.2345678901234568e+29";
     "4.875226177233e+31"; "8.98846567431158e+307"; "null"].
Proof. vm_compute. reflexivity. Qed.

(** Reading JSON: escapes in either spelling, nesting, and texts that
    are not JSON. *)
Example decode_examples :
  JSON.decode (dq ++ "A" ++ JSON.backslash ++ "/" ++ JSON.backslash
                  ++ "u0041" ++ JSON.backslash ++ "n" ++ dq)
  = Some (JStr (String "A" (String "/" (String "A"
                  (String "010"%char EmptyString)))))
  /\ JSON.decode ("{" ++ dq ++ "a" ++ dq ++ ":[1,-2,{}],"
                      ++ dq ++ "b" ++ dq ++ ":null}")
     = Some (JObj [("a", JArr [JNum 1; JNum (-2); JObj []]);
                   ("b", JNull)])
  /\ JSON.decode "01" = None
  /\ JSON.decode "[1,]" = None
  /\ JSON.decode "{}x" = None
  /\ JSON.decode (dq ++ JSON.backslash ++ "x" ++ dq) = None
  /\ JSON.decode (dq ++ "a") = None.
Proof. vm_compute. repeat split. Qed.

(** The client's method names are upper-cased before they are compared. *)
Example refuses_payload_examples :
  map refuses_payload ["GET"; "get"; "Head"; "POST"; "PUT"; "GETS"]
  = [true; true; true; false; false; false].
Proof. vm_compute. reflexivity. Qed.

(** The hook runs on a response the client retries as well: the
    authorization sent with a 503 that is retried is in the state when
    the call resolves with the body of the 200 that follows. *)
Example send_busy_then_ok :
  send K0 busy_then_ok 0 call_put st0
  = (set_authorization "Bearer busy" st0,
     Fulfilled (JObj [("status", JStr "ok")])).
Proof. rewrite send_unfold. reflexivity. Qed.

(** A call without a method is a GET with a form, which the client
    refuses before anything is sent. *)
Example send_get_refused :
  send K0 busy_then_ok 0 call_get st0
  = (st0,
     Rejected (Thrown "TypeError"
                      "The `GET` method cannot be used with a body")).
Proof. rewrite send_unfold. reflexivity. Qed.

(** Nor does the client send a call whose [url] starts with a slash. *)
Example send_slash_refused :
  send K0 echo 0
       {| ro_url := "/foo"; ro_method := Some "POST";
          ro_headers := None; ro_data := None |} st0
  = (st0,
     Rejected
       (Thrown "Error"
          "`input` must not start with a slash when using `prefixUrl`")).
Proof. rewrite send_unfold. reflexivity. Qed.

(** A 200 answer whose body is not JSON: the call is rejected and the
    tracked headers of the answer are not taken over. *)
Example send_not_json :
  send K0 not_json 0 call_foo st0 = (st0, Rejected ParseError).
Proof. rewrite send_unfold. reflexivity. Qed.

End KnownAnswers.

(* ================================================================== *)
(** ** The claims *)

Module Claims.
Import JS Session Got Request Sample.
Import Text TextFacts ObjectFacts NumberFacts RequestFacts MergeFacts.
Import EnumerationFacts JSONFacts.




(** C2.  [sign] is a function of its argument alone: the lowercase
    hexadecimal HMAC-SHA256 of the UTF-8 bytes of the text under the
    signing key, 64 characters long.  The digests are the published
    ones: RFC 4231 test cases 1 and 2, and, computed independently, a
    key longer than a block, the empty text, a short text and a text of
    three blocks. *)
Theorem sign_is_hmac_sha256 (K : Constants) (x : string) :
  sign K x = hex (HMAC.hmac_sha256 (utf8 (SIGNATURE_KEY K)) (utf8 x))
  /\ String.length (sign K x) = 64%nat
  /\ forallb is_lower_hex (list_ascii_of_string (sign K x)) = true
  /\ sign (keyed (string_of_list_ascii (repeat "011"%char 20))) "Hi There"
     = "b0344c61d8db38535ca8afceaf0bf12b881dc200c9833da726e9376c2e32cff7"
  /\ sign (keyed "Jefe") "what do ya want for nothing?"
     = "5bdcc146bf60754e6a042426089575c75a003f089d2739839dec58b964ec3843"
  /\ sign (keyed (string_of_list_ascii (repeat "k"%char 131)))
          "Test Using Larger Than Block-Size Key - Hash Key First"
     = "70e4b005732fa7ff79392aa24fb240159b925dbc9f1398420c0f45e6763dcf14"
  /\ sign K0 EmptyString
     = "496dc93fa2d26eae500ec0bc37a122706b88f8963cebf0899d0245fae313e241"
  /\ sign K0 ("{" ++ dq ++ "a" ++ dq ++ ":1}")
     = "1c76fbb930d3aa8b1633728fae212c68ca68a6752bb319b98be6fe17e86cf5b8"
  /\ sign K0 (concat EmptyString
                (repeat "The quick brown fox jumps over the lazy dog. "
                        3))
     = "4efc473c0f875ab1ea532f851f3d002e5067d6aa92576ec19de6009975457123".
Proof.
  split; [apply sign_hmac|].
  split; [apply sign_length|]. split; [apply sign_chars|].
  repeat split; vm_compute; reflexivity.
Qed.





(** C5.  After the response hook, each tracked field holds the value of
    its header when that header is a single string; when the header is
    absent, or is not a string, the field keeps its value; no other
    field is touched.  The hook is total: there is no error case. *)
Theorem updateStateFromResponse_tracked (t : Tracked) (r : Response)
        (st : State) :
  field t (updateStateFromResponse r st)
  = match lookup (header_name t) (responseHeaders r) with
    | Some (JStr s) => s
    | _ => field t st
    end
  /\ same_untracked st (updateStateFromResponse r st).
Proof.
  split; [|apply updateStateFromResponse_frame].
  rewrite updateStateFromResponse_field. unfold get.
  destruct (lookup (header_name t) (responseHeaders r)) as [[]|];
    reflexivity.
Qed.

(** C6.  The default body is the single field [_csrfToken]; for
    [send({url: "foo", method: "POST", data: {x: 1}})] the signed body
    passes verification and its text is the JSON of
    [{_csrfToken: state.csrfToken, x: 1}], which an echoing transport
    returns. *)
Theorem send_foo_signed_body (K : Constants) (now : Z) (st : State) :
  let text := JSON.stringify_object
                [("_csrfToken", JStr (csrfToken st)); ("x", JNum 1)] in
  data st = [("_csrfToken", JStr (csrfToken st))]
  /\ text = ("{" ++ dq ++ "_csrfToken" ++ dq ++ ":"
               ++ JSON.quote (csrfToken st)
               ++ "," ++ dq ++ "x" ++ dq ++ ":1}")%string
  /\ (exists f, form (requestOptions K st now call_foo) = Some f
                /\ Receiver.verify K (signed_body f) = Some text)
  /\ send K echo now call_foo st
     = (st, Fulfilled
              (JObj [("ig_sig_key_version", JStr (SIGNATURE_VERSION K));
                     ("signed_body",
                      JStr (sign K text ++ "." ++ text)%string)])).
Proof.
  cbv zeta. split; [reflexivity|]. split.
  { unfold JSON.stringify_object.
    cbn [JSON.serialize flat_map fst snd JSON.is_undefined app].
    remember (JSON.quote (csrfToken st)) as q. cbn.
    rewrite append_assoc. reflexivity. }
  split.
  - eexists. split; [reflexivity|].
    cbn [signed_body signData]. apply verify_signed.
  - rewrite send_unfold, exchange_of_sent by reflexivity.
    unfold echo, received, final_jar.
    cbn [retried outcome map app snd].
    change (filter hooked [?r]) with [r].
    cbn [fold_left]. change (apply_hook st _) with st.
    rewrite set_cookieJar_same. reflexivity.
Qed.

(** A response with none of the tracked headers leaves the state as it
    is. *)
Lemma updateStateFromResponse_none (r : Response) (st : State) :
  (forall t, lookup (header_name t) (responseHeaders r) = None) ->
  updateStateFromResponse r st = st.
Proof.
  intros H. apply state_ext; [apply updateStateFromResponse_frame|].
  intros t. rewrite updateStateFromResponse_field. unfold get.
  now rewrite H.
Qed.

(** The hook on the sample responses: all four headers present, none
    present, and an array where a string is expected. *)
Example updateStateFromResponse_samples :
  let r hs := {| statusCode := 200; responseHeaders := hs;
                 responseBody := Decoded JNull |} in
  updateStateFromResponse (r tracked_headers) st0
  = set_passwordEncryptionPublicKey "pk-new"
      (set_passwordEncryptionKeyId "8"
         (set_authorization "Bearer new" (set_igWWWClaim "hmac.new" st0)))
  /\ updateStateFromResponse (r []) st0 = st0
  /\ updateStateFromResponse (r array_headers) st0 = st0.
Proof. repeat split. Qed.



(** C8.  The [X-Pigeon-Rawclienttime] default is computed from the clock
    reading of the call: digits, a full stop and exactly three digits,
    which read back, in milliseconds, as that clock reading itself; two
    different clock readings give two different headers. *)
Theorem rawclienttime_is_call_time (K : Constants) (st : State) (now : Z) :
  0 <= now <= Number.max_time ->
  exists ts,
    lookup "X-Pigeon-Rawclienttime" (headers K st now) = Some (JStr ts)
    /\ ts = Number.toFixed (Number.fdiv now 1000) 3
    /\ (exists ip fp,
          ts = (string_of_list_ascii ip ++ "."
                  ++ string_of_list_ascii fp)%string
          /\ ip <> [] /\ forallb is_digit ip = true
          /\ List.length fp = 3%nat /\ forallb is_digit fp = true)
    /\ Number.read_fixed3 ts = Some now
    /\ forall now', 0 <= now' <= Number.max_time ->
         lookup "X-Pigeon-Rawclienttime" (headers K st now') = Some (JStr ts)
         -> now' = now.
Proof.
  intros Hn.
  destruct (toFixed_fdiv_1000 now Hn) as (ip & fp & E & H1 & H2 & H3 & H4 & H5).
  assert (R : Number.read_fixed3 (Number.toFixed (Number.fdiv now 1000) 3)
              = Some now).
  { rewrite E, read_fixed3_spec by assumption. now rewrite H5. }
  eexists. split; [reflexivity|]. split; [reflexivity|].
  split; [exists ip, fp; auto|]. split; [exact R|].
  intros now' Hn' E'.
  change (lookup "X-Pigeon-Rawclienttime" (headers K st now'))
    with (Some (JStr (Number.toFixed (Number.fdiv now' 1000) 3))) in E'.
  injection E' as E'.
  destruct (toFixed_fdiv_1000 now' Hn')
    as (ip' & fp' & F & G1 & G2 & G3 & G4 & G5).
  assert (R' : Number.read_fixed3
                 (Number.toFixed (Number.fdiv now' 1000) 3) = Some now').
  { rewrite F, read_fixed3_spec by assumption. now rewrite G5. }
  rewrite E' in R'. congruence.
Qed.

Lemma rawclienttime_is_call_time_witness :
  0 <= 1700000000123 <= Number.max_time
  /\ exists ts,
       lookup "X-Pigeon-Rawclienttime" (headers K0 st0 1700000000123)
       = Some (JStr ts)
       /\ Number.read_fixed3 ts = Some 1700000000123.
Proof.
  assert (H : 0 <= 1700000000123 <= Number.max_time)
    by (unfold Number.max_time; lia).
  split; [exact H|].
  destruct (rawclienttime_is_call_time K0 st0 1700000000123 H)
    as (ts & E & _ & _ & R & _).
  exists ts. split; assumption.
Defined.

(** C9.  Over a whole call, the CSRF token, the device UUID, the device
    id, the pigeon session id and the user agent are as before; the
    response hook never assigns them, nor the cookie jar, which is as the
    client left it; and each of the four tracked fields takes its value
    only from its own header in the responses that reached the hook, so
    that responses without that header leave it as it was. *)
Theorem send_writes_tracked_fields_only (K : Constants) (net : Transport)
        (now : Z) (options : RequestOptions) (st : State) :
  let st' := fst (send K net now options st) in
  let x := exchange_of K net now options st in
  csrfToken st' = csrfToken st
  /\ uuid st' = uuid st
  /\ deviceId st' = deviceId st
  /\ pigeonSessionId st' = pigeonSessionId st
  /\ appUserAgent st' = appUserAgent st
  /\ cookieJar st' = final_jar x
  /\ (forall r s, same_untracked s (updateStateFromResponse r s))
  /\ forall t, field t st' = fold_left (pick t) (received x) (field t st).
Proof.
  cbv zeta. rewrite send_unfold. cbn [fst].
  set (x := exchange_of _ _ _ _ _).
  destruct (fold_hook_frame (received x) st) as (_ & F1 & F2 & F3 & F4 & F5).
  repeat match goal with |- _ /\ _ => split end; auto.
  - apply updateStateFromResponse_frame.
  - intros t.
    rewrite <- fold_hook_field. destruct t; reflexivity.
Qed.

(** C10.  The default [X-IG-WWW-Claim] header is the constant ["0"]:
    the stored claim value has no influence on the request that is
    built, and unless the caller overrides the header the outgoing
    request carries ["0"]. *)
Theorem www_claim_header_is_zero (K : Constants) (st : State) (now : Z)
        (claim : string) (options : RequestOptions) :
  lookup "X-IG-WWW-Claim" (headers K st now) = Some (JStr "0")
  /\ headers K (set_igWWWClaim claim st) now = headers K st now
  /\ requestOptions K (set_igWWWClaim claim st) now options
     = requestOptions K st now options
  /\ (lookup "X-IG-WWW-Claim" (or_empty (ro_headers options)) = None ->
      lookup "X-IG-WWW-Claim"
             (Got.headers (requestOptions K st now options))
      = Some (JStr "0")).
Proof.
  split; [reflexivity|]. split; [reflexivity|]. split; [reflexivity|].
  intros H. cbn [Got.headers requestOptions].
  unfold send_headers, spread2. rewrite headers_own_copy.
  rewrite lookup_copy_absent by exact H. reflexivity.
Qed.

Lemma www_claim_header_is_zero_witness :
  lookup "X-IG-WWW-Claim" (or_empty (ro_headers call_override)) = None
  /\ lookup "X-IG-WWW-Claim"
            (Got.headers (requestOptions K0 st0 0 call_override))
     = Some (JStr "0").
Proof.
  split; [reflexivity|].
  exact (proj2 (proj2 (proj2
           (www_claim_header_is_zero K0 st0 0 "any" call_override)))
           eq_refl).
Defined.

End Claims.

(* ================================================================== *)
(** ** From one call to the next *)

Module Pipeline.
Import JS Session Got Request Sample Merge.
Import Text TextFacts ObjectFacts RequestFacts MergeFacts JSONFacts.

(** *** Helpers *)

Lemma headers_nodup (K : Constants) (st : State) (now : Z) :
  NoDup (keys (headers K st now)).
Proof.
  rewrite <- headers_own_copy. apply nodup_copy. constructor.
Qed.

Lemma data_nodup (st : State) : NoDup (keys (data st)).
Proof. rewrite <- data_own_copy. apply nodup_copy. constructor. Qed.

Lemma fold_pick_last (t : Tracked) (l : list Response) (r : Response)
      (old : string) :
  fold_left (pick t) (l ++ [r]) old = pick t (fold_left (pick t) l old) r.
Proof. rewrite fold_left_app. reflexivity. Qed.

Lemma received_last (x : Exchange) (jar : CookieJar) (r : Response) :
  outcome x = Responded jar r -> hooked r = true ->
  received x = filter hooked (map snd (retried x)) ++ [r].
Proof.
  intros E H. unfold received. rewrite E, filter_app.
  cbn [filter]. now rewrite H.
Qed.

(** What a state contributes to the header table, apart from the
    authorization and the [mid] cookie. *)
Lemma headers_same_readonly (K : Constants) (st st' : State) (now : Z)
      (k : string) :
  same_readonly st st' ->
  k <> "Authorization" -> k <> "X-MID" ->
  lookup k (headers K st' now) = lookup k (headers K st now).
Proof.
  intros (H1 & H2 & H3 & H4 & H5) Ha Hm. unfold headers.
  rewrite H2, H3, H4, H5. cbn [lookup].
  repeat match goal with
         | |- context [String.eqb k ?lit] =>
             destruct (String.eqb_spec k lit);
             [try reflexivity; congruence|]
         end.
  reflexivity.
Qed.

Lemma replace_first_absent (from to : ascii) (s : string) :
  forallb (fun c => negb (Ascii.eqb c from)) (list_ascii_of_string s) = true ->
  replace_first from to s = s.
Proof.
  induction s as [|c s IH]; cbn [replace_first list_ascii_of_string forallb];
    intros H; [reflexivity|].
  apply andb_true_iff in H as [Hc Hs]. apply negb_true_iff in Hc.
  rewrite Hc, (IH Hs). reflexivity.
Qed.

Lemma replace_first_at (from to : ascii) (a b : string) :
  forallb (fun c => negb (Ascii.eqb c from)) (list_ascii_of_string a) = true ->
  replace_first from to (a ++ String from b) = (a ++ String to b)%string.
Proof.
  induction a as [|c a IH]; cbn [replace_first list_ascii_of_string forallb
                                 append]; intros H.
  - now rewrite Ascii.eqb_refl.
  - apply andb_true_iff in H as [Hc Ha]. apply negb_true_iff in Hc.
    rewrite Hc, (IH Ha). reflexivity.
Qed.

Lemma apply_hook_untracked (r : Response) (st : State) :
  untracked r -> apply_hook st r = st.
Proof.
  intros Hr. unfold apply_hook. apply state_ext.
  - apply updateStateFromResponse_frame.
  - intros t. rewrite updateStateFromResponse_field. unfold get.
    now rewrite (Hr t).
Qed.

Lemma replace_first_length (from to : ascii) (s : string) :
  String.length (replace_first from to s) = String.length s.
Proof.
  induction s as [|c s IH]; cbn [replace_first]; [reflexivity|].
  destruct (Ascii.eqb c from); cbn [String.length]; congruence.
Qed.

(** *** The merged maps *)


(** X2.  Whatever the caller passes, the two merged maps have pairwise
    distinct keys. *)
Theorem send_merged_distinct_keys (K : Constants) (st : State) (now : Z)
        (options : RequestOptions) :
  NoDup (keys (Got.headers (requestOptions K st now options)))
  /\ NoDup (keys (send_data st options)).
Proof. split; apply nodup_spread2. Qed.



(** *** The signed body *)

(** X4.  A signed body is self-delimiting: it is 65 characters longer
    than the JSON text, its first full stop is the separator, what
    precedes it is the signature and what follows is the JSON text; the
    receiver's check accepts it and yields that text. *)
Theorem signData_self_delimiting (K : Constants) (d : JSObject) :
  let text := JSON.stringify_object d in
  let sb := signed_body (signData K d) in
  String.length sb = (65 + String.length text)%nat
  /\ split_at "."%char (list_ascii_of_string sb)
     = Some (list_ascii_of_string (sign K text), list_ascii_of_string text)
  /\ Receiver.verify K sb = Some text.
Proof.
  cbv zeta. cbn [signed_body signData].
  split; [|split].
  - rewrite !length_append, sign_length. reflexivity.
  - rewrite chars_app. cbn [append list_ascii_of_string].
    apply split_at_first.
    eapply forallb_impl; [apply lower_hex_not_dot | apply sign_chars].
  - apply verify_signed.
Qed.

(** *** The response hook and the calls that follow *)

(** X5.  The response hook is idempotent: running it again on the same
    response changes nothing. *)
Theorem updateStateFromResponse_idempotent (r : Response) (st : State) :
  updateStateFromResponse r (updateStateFromResponse r st)
  = updateStateFromResponse r st.
Proof. tracked_cases r; reflexivity. Qed.

(** X6.  The authorization a response sets is what the next request
    sends: when the response a call settles on reaches the hook (any
    response does, whatever its status, except one with a successful
    status whose body is not JSON) and carries [ig-set-authorization] as
    a string, the request built from the resulting state has that string
    as its [Authorization] header, unless the caller overrides it. *)
Theorem authorization_feeds_next_request (K : Constants) (net : Transport)
        (now now' : Z) (options options' : RequestOptions) (st : State)
        (jar : CookieJar) (r : Response) (s : string) :
  outcome (exchange_of K net now options st) = Responded jar r ->
  isResponseOk r && undecoded r = false ->
  lookup "ig-set-authorization" (responseHeaders r) = Some (JStr s) ->
  lookup "Authorization" (or_empty (ro_headers options')) = None ->
  lookup "Authorization"
         (Got.headers
            (requestOptions K (fst (send K net now options st)) now'
                            options'))
  = Some (JStr s).
Proof.
  intros Ho Hk Hs Hn. cbn [Got.headers requestOptions].
  unfold send_headers, spread2. rewrite headers_own_copy.
  rewrite lookup_copy_absent by exact Hn.
  change (lookup "Authorization" (headers K ?s' now'))
    with (Some (JStr (field Authorization s'))).
  rewrite send_unfold. cbn [fst].
  change (field Authorization (set_cookieJar ?j ?s'))
    with (field Authorization s').
  assert (Hh : hooked r = true) by (unfold hooked; now rewrite Hk).
  rewrite fold_hook_field, (received_last _ _ _ Ho Hh), fold_pick_last.
  unfold pick at 1. cbn [header_name]. rewrite Hs. reflexivity.
Qed.

Lemma authorization_feeds_next_request_witness :
  lookup "Authorization"
         (Got.headers
            (requestOptions K0 (fst (send K0 not_found 0 call_foo st0)) 1
                            call_foo))
  = Some (JStr "Bearer new").
Proof.
  exact (authorization_feeds_next_request
           K0 not_found 0 1 call_foo call_foo st0
           (cookieJar st0)
           {| statusCode := 404; responseHeaders := tracked_headers;
              responseBody := Decoded (JObj [("status", JStr "fail")]) |}
           "Bearer new" eq_refl eq_refl eq_refl eq_refl).
Defined.

(** X7.  A call leaves the defaults of the next request as they were,
    except for the authorization and the [mid] cookie: every other
    default header, for a given clock reading, and the default body are
    the same before and after. *)
Theorem send_keeps_next_defaults (K : Constants) (net : Transport)
        (now now' : Z) (options : RequestOptions) (st : State)
        (k : string) :
  k <> "Authorization" -> k <> "X-MID" ->
  lookup k (headers K (fst (send K net now options st)) now')
  = lookup k (headers K st now')
  /\ data (fst (send K net now options st)) = data st.
Proof.
  intros Ha Hm. rewrite send_unfold. cbn [fst].
  set (x := exchange_of _ _ _ _ _).
  destruct (fold_hook_frame (received x) st) as [_ Hr].
  assert (Hr' : same_readonly
                  st (set_cookieJar (final_jar x)
                        (fold_left apply_hook (received x) st)))
    by exact Hr.
  split.
  - now apply headers_same_readonly.
  - unfold data. destruct Hr' as (-> & _). reflexivity.
Qed.

Lemma send_keeps_next_defaults_witness :
  "User-Agent" <> "Authorization" /\ "User-Agent" <> "X-MID"
  /\ lookup "User-Agent"
            (headers K0 (fst (send K0 not_found 0 call_foo st0)) 1)
     = lookup "User-Agent" (headers K0 st0 1).
Proof.
  assert (Ha : "User-Agent" <> "Authorization") by discriminate.
  assert (Hm : "User-Agent" <> "X-MID") by discriminate.
  split; [exact Ha|]. split; [exact Hm|].
  exact (proj1 (send_keeps_next_defaults
                  K0 not_found 0 1 call_foo st0 "User-Agent" Ha Hm)).
Defined.

(** X8.  When no response of the exchange that reaches the hook carries
    a tracked header, the call leaves the state as it was, apart from the
    cookie jar. *)
Theorem send_without_tracked_headers (K : Constants) (net : Transport)
        (now : Z) (options : RequestOptions) (st : State) :
  let x := exchange_of K net now options st in
  Forall untracked (received x) ->
  fst (send K net now options st) = set_cookieJar (final_jar x) st.
Proof.
  cbv zeta. intros H. rewrite send_unfold. cbn [fst]. f_equal.
  induction H as [|r l Hr _ IH]; cbn [fold_left]; [reflexivity|].
  rewrite (apply_hook_untracked r st Hr). exact IH.
Qed.

Lemma send_without_tracked_headers_witness :
  Forall untracked (received (exchange_of K0 echo 0 call_foo st0))
  /\ fst (send K0 echo 0 call_foo st0) = st0.
Proof.
  assert (H : Forall untracked
                (received (exchange_of K0 echo 0 call_foo st0))).
  { repeat constructor. }
  split; [exact H|].
  rewrite (send_without_tracked_headers K0 echo 0 call_foo st0 H).
  reflexivity.
Defined.

(** *** The language header *)

(** X9.  [Accept-Language] is the language constant with its first
    underscore, and only the first, turned into a hyphen; a constant
    without an underscore is sent as it is.  The length never changes. *)
Theorem accept_language_first_underscore (K : Constants) (st : State)
        (now : Z) :
  exists v,
    lookup "Accept-Language" (headers K st now) = Some (JStr v)
    /\ String.length v = String.length (LANGUAGE K)
    /\ (forall a b,
          forallb (fun c => negb (Ascii.eqb c "_"))
                  (list_ascii_of_string a) = true ->
          LANGUAGE K = (a ++ String "_" b)%string ->
          v = (a ++ String "-" b)%string)
    /\ (forallb (fun c => negb (Ascii.eqb c "_"))
                (list_ascii_of_string (LANGUAGE K)) = true ->
        v = LANGUAGE K).
Proof.
  eexists. split; [reflexivity|]. split; [apply replace_first_length|].
  split.
  - intros a b Ha E. rewrite E. now apply replace_first_at.
  - apply replace_first_absent.
Qed.

Lemma accept_language_first_underscore_witness :
  lookup "Accept-Language" (headers K0 st0 0) = Some (JStr "en-US").
Proof.
  destruct (accept_language_first_underscore K0 st0 0)
    as (v & E & _ & H & _).
  rewrite E. rewrite (H "en" "US" eq_refl eq_refl). reflexivity.
Defined.

End Pipeline.
